(** * queuectl: the job lifecycle engine

    A shallow embedding of [queuectl/models.py], [queuectl/database.py],
    [queuectl/config.py], [queuectl/queue.py] and [queuectl/worker.py].

    - The [jobs] table is a finite map from the primary key [id] to the
      remaining columns of the row.
    - Python integers are [Z]; timestamps ([datetime.utcnow()], stored as
      ISO text) are [Z] as well, a count of microseconds whose order is the
      order of the stored text.
    - Exceptions are values of an error type; functions that can raise
      return a sum.
    - The worker runs in a small state-and-exception monad over a [World]
      that carries the table, the readings of the clock still to come and
      the outcome (success or I/O failure) of the store calls still to come. *)

From stdpp Require Import base option list sorting gmap strings fin_maps.
From Stdlib Require Import ZArith Lia.

Local Open Scope Z_scope.
Local Open Scope string_scope.

(** ** models.py *)

(** [class JobState(str, Enum)] *)
Inductive JobState : Type :=
  | PENDING
  | PROCESSING
  | COMPLETED
  | FAILED
  | DEAD.

#[global] Instance JobState_eq_dec : EqDecision JobState.
Proof. solve_decision. Defined.

(** [JobState.X.value]: the text that is persisted in the [state] column. *)
Definition value (s : JobState) : string :=
  match s with
  | PENDING => "pending"
  | PROCESSING => "processing"
  | COMPLETED => "completed"
  | FAILED => "failed"
  | DEAD => "dead"
  end.

(** [JobState(text)]: the member whose value is [text]; Python raises
    [ValueError] when there is none, which is [None] here. *)
Definition JobState_of (text : string) : option JobState :=
  if bool_decide (text = "pending") then Some PENDING
  else if bool_decide (text = "processing") then Some PROCESSING
  else if bool_decide (text = "completed") then Some COMPLETED
  else if bool_decide (text = "failed") then Some FAILED
  else if bool_decide (text = "dead") then Some DEAD
  else None.

(** [for state in JobState]: the members in definition order. *)
Definition all_states : list JobState :=
  [PENDING; PROCESSING; COMPLETED; FAILED; DEAD].

(** [class Job].  The fields are [id], [command], [state], [attempts],
    [max_retries], [created_at] and [updated_at]; they carry the prefix
    [job_] here because [id] and [state] are taken.  A [Job] object has no
    lock fields: [_row_to_job] drops the two lock columns. *)
Record Job : Type := mkJob {
  job_id : string;
  job_command : string;
  job_state : JobState;
  job_attempts : Z;
  job_max_retries : Z;
  job_created_at : Z;
  job_updated_at : Z
}.

(** Attribute assignments on a job object, as the queue manager and the
    worker perform them. *)
Definition set_state (s : JobState) (j : Job) : Job :=
  mkJob (job_id j) (job_command j) s (job_attempts j) (job_max_retries j)
        (job_created_at j) (job_updated_at j).

Definition set_attempts (a : Z) (j : Job) : Job :=
  mkJob (job_id j) (job_command j) (job_state j) a (job_max_retries j)
        (job_created_at j) (job_updated_at j).

Definition set_updated_at (t : Z) (j : Job) : Job :=
  mkJob (job_id j) (job_command j) (job_state j) (job_attempts j)
        (job_max_retries j) (job_created_at j) t.

(** Exceptions raised by the modelled code. *)
Inductive Exception : Type :=
  | IntegrityError              (* sqlite3: UNIQUE constraint failed: jobs.id *)
  | OverflowError               (* Python int too large to convert to SQLite INTEGER *)
  | OperationalError            (* sqlite3: the store could not be read or written *)
  | ValueError_not_found        (* ValueError(f"Job {job_id} not found") *)
  | ValueError_not_in_dlq.      (* ValueError(f"Job {job_id} is not in DLQ") *)

(** The error kinds of the design: which kind each exception stands for. *)
Inductive ErrorKind : Type :=
  | ValidationError
  | NotFound
  | StateConflict
  | DuplicateID
  | PersistenceError
  | Unclassified.               (* an exception that the design does not name *)

Definition kind_of (e : Exception) : ErrorKind :=
  match e with
  | IntegrityError => DuplicateID
  | OverflowError => Unclassified
  | OperationalError => PersistenceError
  | ValueError_not_found => NotFound
  | ValueError_not_in_dlq => StateConflict
  end.

(** ** database.py *)

Module Database.

(** A row of [jobs] without its primary key: the columns [command],
    [state], [attempts], [max_retries], [created_at], [updated_at],
    [locked_at] and [locked_by]; [None] is SQL [NULL]. *)
Record Row : Type := mkRow {
  command : string;
  state : JobState;
  attempts : Z;
  max_retries : Z;
  created_at : Z;
  updated_at : Z;
  locked_at : option Z;
  locked_by : option string
}.

#[global] Instance Row_eq_dec : EqDecision Row.
Proof. solve_decision. Defined.

(** The table [jobs], keyed by [id TEXT PRIMARY KEY]. *)
Abbreviation Table := (gmap string Row).

(** [Database._row_to_job]: columns 0 to 6 of the row. *)
Definition _row_to_job (kr : string * Row) : Job :=
  mkJob kr.1 (command kr.2) (state kr.2) (attempts kr.2) (max_retries kr.2)
        (created_at kr.2) (updated_at kr.2).

(** An [INTEGER] parameter of a statement must fit in 64 bits, sign
    included; the binding raises [OverflowError] for any other Python
    integer, before the statement runs. *)
Definition sqlite_integer (n : Z) : bool :=
  Z.leb (- 2 ^ 63) n && Z.leb n (2 ^ 63 - 1).

(** [Database.add_job]: [INSERT INTO jobs (id, command, state, attempts,
    max_retries, created_at, updated_at)]; the lock columns get their
    default [NULL]; an existing [id] violates the primary key.  The two
    integer parameters are bound first. *)
Definition add_job (db : Table) (job : Job) : Exception + Table :=
  if negb (sqlite_integer (job_attempts job) &&
           sqlite_integer (job_max_retries job))
  then inl OverflowError
  else
    match db !! job_id job with
    | Some _ => inl IntegrityError
    | None =>
        inr (<[job_id job :=
                 mkRow (job_command job) (job_state job) (job_attempts job)
                       (job_max_retries job) (job_created_at job)
                       (job_updated_at job) None None]> db)
    end.

(** [Database.update_job]: [UPDATE jobs SET command, state, attempts,
    max_retries, updated_at, locked_at = NULL, locked_by = NULL WHERE id = ?].
    [created_at] is not written; no row with that [id] means no change. *)
Definition update_job (db : Table) (job : Job) : Table :=
  match db !! job_id job with
  | Some r =>
      <[job_id job :=
          mkRow (job_command job) (job_state job) (job_attempts job)
                (job_max_retries job) (created_at r) (job_updated_at job)
                None None]> db
  | None => db
  end.

(** [Database.get_job]: [SELECT * FROM jobs WHERE id = ?]. *)
Definition get_job (db : Table) (id : string) : option Job :=
  (fun r => _row_to_job (id, r)) <$> db !! id.

(** [ORDER BY created_at ASC].  SQL leaves the order of rows with equal
    [created_at] open; the sort below keeps some order for them. *)
Definition created_le (a b : string * Row) : Prop :=
  created_at a.2 <= created_at b.2.

#[global] Instance created_le_dec : RelDecision created_le.
Proof. intros a b. unfold created_le. apply Z_le_dec. Defined.

(** [Database.get_jobs_by_state]: [WHERE state = ? ORDER BY created_at ASC]. *)
Definition get_jobs_by_state (db : Table) (s : JobState) : list Job :=
  _row_to_job <$>
    merge_sort created_le
      (filter (fun kr => state kr.2 = s) (map_to_list db)).

(** [Database.get_pending_jobs]: [WHERE state = 'pending' AND locked_at IS
    NULL ORDER BY created_at ASC]. *)
Definition get_pending_jobs (db : Table) : list Job :=
  _row_to_job <$>
    merge_sort created_le
      (filter (fun kr => state kr.2 = PENDING /\ locked_at kr.2 = None)
              (map_to_list db)).

(** [Database.lock_job].  The method issues two statements: first
    [SELECT locked_by FROM jobs WHERE id = ? AND locked_at IS NOT NULL];
    when that finds a row it returns [False]. *)
Definition lock_job_select (db : Table) (id : string) : bool :=
  match db !! id with
  | Some r => bool_decide (locked_at r <> None)
  | None => false
  end.

(** Then [UPDATE jobs SET state = 'processing', locked_at = ?, locked_by = ?,
    updated_at = ? WHERE id = ?] and [return cursor.rowcount > 0].  The
    [WHERE] clause names the [id] only.  [now_lock] and [now_upd] are the two
    readings [datetime.utcnow()] of the parameter tuple. *)
Definition lock_job_update (db : Table) (id worker_id : string)
    (now_lock now_upd : Z) : bool * Table :=
  match db !! id with
  | Some r =>
      (true,
       <[id := mkRow (command r) PROCESSING (attempts r) (max_retries r)
                     (created_at r) now_upd (Some now_lock) (Some worker_id)]> db)
  | None => (false, db)
  end.

(** The whole method, run without another writer in between. *)
Definition lock_job (db : Table) (id worker_id : string)
    (now_lock now_upd : Z) : bool * Table :=
  if lock_job_select db id then (false, db)
  else lock_job_update db id worker_id now_lock now_upd.

(** [Database.unlock_job]: [UPDATE jobs SET locked_at = NULL, locked_by =
    NULL, updated_at = ? WHERE id = ?]. *)
Definition unlock_job (db : Table) (id : string) (now : Z) : Table :=
  match db !! id with
  | Some r =>
      <[id := mkRow (command r) (state r) (attempts r) (max_retries r)
                    (created_at r) now None None]> db
  | None => db
  end.

(** [Database.get_stats].  [SELECT state, COUNT( * ) FROM jobs GROUP BY
    state] has one result row for each state that occurs in the table. *)
Definition count_state (db : Table) (s : JobState) : Z :=
  Z.of_nat (length (filter (fun kr : string * Row => state kr.2 = s)
                           (map_to_list db))).

Definition select_state_counts (db : Table) : list (string * Z) :=
  omap (fun s => if bool_decide (0 < count_state db s)
                 then Some (value s, count_state db s) else None)
       all_states.

(** [stats[state] = count] for every result row, then
    [stats.setdefault(state.value, 0)] for every member of [JobState]. *)
Definition setdefault (k : string) (v : Z) (m : gmap string Z) : gmap string Z :=
  match m !! k with
  | Some _ => m
  | None => <[k := v]> m
  end.

Definition get_stats (db : Table) : gmap string Z :=
  foldl (fun stats s => setdefault (value s) 0 stats)
        (foldl (fun stats sc => <[sc.1 := sc.2]> stats) ∅
               (select_state_counts db))
        all_states.

(** [ORDER BY created_at DESC] *)
Definition created_ge (a b : string * Row) : Prop :=
  created_at b.2 <= created_at a.2.

#[global] Instance created_ge_dec : RelDecision created_ge.
Proof. intros a b. unfold created_ge. apply Z_le_dec. Defined.

(** [Database.get_all_jobs]: [SELECT * FROM jobs ORDER BY created_at DESC]. *)
Definition get_all_jobs (db : Table) : list Job :=
  _row_to_job <$> merge_sort created_ge (map_to_list db).

(** [Database.delete_job]: [DELETE FROM jobs WHERE id = ?]. *)
Definition delete_job (db : Table) (id : string) : Table :=
  delete id db.

End Database.

Import Database.

(** [d.get(key, default)] on a dictionary with integer values. *)
Definition dict_get (d : gmap string Z) (key : string) (default : Z) : Z :=
  match d !! key with
  | Some v => v
  | None => default
  end.

(** ** config.py *)

Module Config.

(** [Config.DEFAULTS] *)
Definition DEFAULTS : gmap string Z :=
  <["max_retries" := 3]> (<["backoff_base" := 2]> (<["worker_timeout" := 300]> ∅)).

(** [Config.get]: [self._config.get(key, default)] on the loaded
    dictionary [cfg]; the options read by the engine are integers. *)
Definition get (cfg : gmap string Z) (key : string) (default : Z) : Z :=
  dict_get cfg key default.

End Config.

(** The [Config] object with its file.  [_config] is [None] until the
    first use (lazy load). *)

Module ConfigObject.

(** What [open] and [json.load] make of the configuration file. *)
Inductive File : Type :=
  | Missing                      (* [Path(cfg_path).exists()] is false *)
  | Unreadable                   (* [IOError] or [json.JSONDecodeError] *)
  | Undecodable                  (* any other exception of the load, such as
                                    [UnicodeDecodeError] for bytes that are
                                    not UTF-8 *)
  | Holds (d : gmap string Z)    (* a JSON object *)
  | HoldsNull                    (* the JSON text [null] *)
  | HoldsOther.                  (* a JSON array, string, number or boolean *)

(** The value of [self._config] once it is not [None]. *)
Inductive Loaded : Type :=
  | Dict (d : gmap string Z)
  | NotDict.

Record State : Type := mkState {
  _config : option Loaded;
  config_file : File
}.

Inductive ConfigError : Type :=
  | LoadError        (* the exception that left [_load_config] *)
  | AttributeError   (* [.get] on a value that is not a dictionary *)
  | TypeError.       (* item assignment on a value that is not a dictionary *)

(** [Config._load_config]: the [except] clause names
    [json.JSONDecodeError] and [IOError] only; [json.load] returns [None]
    for [null] and the array, string, number or boolean otherwise. *)
Definition _load_config (st : State) : ConfigError + option Loaded :=
  match config_file st with
  | Missing => inr (Some (Dict Config.DEFAULTS))
  | Unreadable => inr (Some (Dict Config.DEFAULTS))
  | Undecodable => inl LoadError
  | Holds d => inr (Some (Dict d))
  | HoldsNull => inr None
  | HoldsOther => inr (Some NotDict)
  end.

(** [Config._ensure_loaded] *)
Definition _ensure_loaded (st : State) : (ConfigError + unit) * State :=
  match _config st with
  | Some _ => (inr tt, st)
  | None =>
      match _load_config st with
      | inl e => (inl e, st)
      | inr c => (inr tt, mkState c (config_file st))
      end
  end.

(** [Config._save_config]: [json.dump(self._config, f)]. *)
Definition _save_config (st : State) : State :=
  mkState (_config st)
          (match _config st with
           | Some (Dict d) => Holds d
           | Some NotDict => HoldsOther
           | None => HoldsNull
           end).

(** [Config.get(key, default)]: [self._config.get(key, default)]. *)
Definition get (st : State) (key : string) (default : Z)
    : (ConfigError + Z) * State :=
  match _ensure_loaded st with
  | (inl e, st') => (inl e, st')
  | (inr _, st') =>
      match _config st' with
      | Some (Dict d) => (inr (Config.get d key default), st')
      | Some NotDict => (inl AttributeError, st')
      | None => (inl AttributeError, st')
      end
  end.

(** [Config.set]: [self._config[key] = value], then [_save_config]. *)
Definition set (st : State) (key : string) (v : Z)
    : (ConfigError + unit) * State :=
  match _ensure_loaded st with
  | (inl e, st') => (inl e, st')
  | (inr _, st') =>
      match _config st' with
      | Some (Dict d) =>
          (inr tt,
           _save_config (mkState (Some (Dict (<[key := v]> d)))
                                 (config_file st')))
      | Some NotDict => (inl TypeError, st')
      | None => (inl TypeError, st')
      end
  end.

(** [Config.reset] *)
Definition reset (st : State) : State :=
  _save_config (mkState (Some (Dict Config.DEFAULTS)) (config_file st)).

(** [Config()]: a new object on the same file. *)
Definition fresh (f : File) : State := mkState None f.

End ConfigObject.

(** ** queue.py *)

Module QueueManager.

(** Python's [x or y] on an optional string and on an optional integer:
    [None], the empty string and [0] are falsy. *)
Definition str_or (x : option string) (y : string) : string :=
  match x with
  | Some s => if bool_decide (s = "") then y else s
  | None => y
  end.

Definition int_or (x : option Z) (y : Z) : Z :=
  match x with
  | Some n => if bool_decide (n = 0) then y else n
  | None => y
  end.

(** [QueueManager.enqueue].  [uuid12] is [str(uuid.uuid4())[:12]];
    [now_created] and [now_updated] are the two clock readings of the
    constructor call.  The method body has no check on [command]. *)
Definition enqueue (cfg : gmap string Z) (db : Table) (cmd : string)
    (jid : option string) (retries : option Z) (uuid12 : string)
    (now_created now_updated : Z) : Exception + (Job * Table) :=
  let job_id := str_or jid uuid12 in
  let max_retries := int_or retries (Config.get cfg "max_retries" 3) in
  let job := mkJob job_id cmd PENDING 0 max_retries now_created now_updated in
  match add_job db job with
  | inl e => inl e
  | inr db' => inr (job, db')
  end.

(** [QueueManager.retry_dlq_job] *)
Definition retry_dlq_job (db : Table) (id : string) (now : Z)
    : Exception + (Job * Table) :=
  match get_job db id with
  | None => inl ValueError_not_found
  | Some job =>
      if bool_decide (job_state job <> DEAD) then inl ValueError_not_in_dlq
      else
        let job := set_state PENDING job in
        let job := set_attempts 0 job in
        let job := set_updated_at now job in
        inr (job, update_job db job)
  end.

(** The dictionary returned by [QueueManager.get_stats]. *)
Record Stats : Type := mkStats {
  total : Z;
  pending : Z;
  processing : Z;
  completed : Z;
  failed : Z;
  dead : Z
}.

(** [sum(stats.values())] *)
Definition sum_values (stats : gmap string Z) : Z :=
  map_fold (fun _ v acc => v + acc) 0 stats.

(** [QueueManager.get_stats] *)
Definition get_stats (db : Table) : Stats :=
  let stats := Database.get_stats db in
  mkStats (sum_values stats)
          (dict_get stats (value PENDING) 0)
          (dict_get stats (value PROCESSING) 0)
          (dict_get stats (value COMPLETED) 0)
          (dict_get stats (value FAILED) 0)
          (dict_get stats (value DEAD) 0).

(** [QueueManager.get_job] *)
Definition get_job (db : Table) (id : string) : option Job :=
  Database.get_job db id.

(** [JobState(state)] raising [ValueError: '..' is not a valid JobState]. *)
Inductive EnumError : Type :=
  | ValueError_not_a_valid_JobState (text : string).

(** [QueueManager.list_jobs]: [if state:] is false for [None] and for the
    empty string. *)
Definition list_jobs (db : Table) (state : option string)
    : EnumError + list Job :=
  match state with
  | None => inr (get_all_jobs db)
  | Some text =>
      if bool_decide (text = "") then inr (get_all_jobs db)
      else
        match JobState_of text with
        | Some s => inr (get_jobs_by_state db s)
        | None => inl (ValueError_not_a_valid_JobState text)
        end
  end.

(** [QueueManager.get_dlq_jobs] *)
Definition get_dlq_jobs (db : Table) : list Job :=
  get_jobs_by_state db DEAD.

End QueueManager.

(** ** worker.py *)

Module Worker.

(** The world a worker runs in: the table, the clock and the health of the
    store.  [clock n] is the value of the [n]-th call of
    [datetime.utcnow()], [fails n] says whether the [n]-th call of a
    [Database] method raises instead of doing its work. *)
Record World : Type := mkWorld {
  store : Table;
  clock : nat -> Z;
  reads : nat;
  fails : nat -> bool;
  calls : nat
}.

(** State and exceptions. *)
Definition M (A : Type) : Type := World -> (Exception + A) * World.

Definition ret {A} (a : A) : M A := fun w => (inr a, w).

Definition bind {A B} (m : M A) (k : A -> M B) : M B :=
  fun w =>
    match m w with
    | (inl e, w') => (inl e, w')
    | (inr a, w') => k a w'
    end.

(** [try: body except Exception as e: handler] *)
Definition try_except {A} (body : M A) (handler : Exception -> M A) : M A :=
  fun w =>
    match body w with
    | (inl e, w') => handler e w'
    | (inr a, w') => (inr a, w')
    end.

Notation "'let*' x ':=' m 'in' k" := (bind m (fun x => k))
  (at level 10, x name, m at level 100, k at level 200).
Notation "'run*' m 'in' k" := (bind m (fun _ => k))
  (at level 10, m at level 100, k at level 200).

(** [datetime.utcnow()] *)
Definition utcnow : M Z :=
  fun w => (inr (clock w (reads w)),
            mkWorld (store w) (clock w) (S (reads w)) (fails w) (calls w)).

(** [with sqlite3.connect(self.db_path) as conn]: entering a [Database]
    method.  A failing store raises here and the method has no effect. *)
Definition connect : M unit :=
  fun w =>
    let w' := mkWorld (store w) (clock w) (reads w) (fails w) (S (calls w)) in
    if fails w (calls w) then (inl OperationalError, w') else (inr tt, w').

Definition read_store : M Table := fun w => (inr (store w), w).

Definition write_store (db : Table) : M unit :=
  fun w => (inr tt, mkWorld db (clock w) (reads w) (fails w) (calls w)).

(** The calls [self.db.get_pending_jobs()], [self.db.lock_job(..)],
    [self.db.update_job(..)] and [self.db.unlock_job(..)]. *)
Definition db_get_pending_jobs : M (list Job) :=
  run* connect in
  let* db := read_store in
  ret (get_pending_jobs db).

Definition db_lock_job (id worker_id : string) : M bool :=
  run* connect in
  let* db := read_store in
  if lock_job_select db id then ret false
  else
    let* now_lock := utcnow in
    let* now_upd := utcnow in
    run* write_store (lock_job_update db id worker_id now_lock now_upd).2 in
    ret (lock_job_update db id worker_id now_lock now_upd).1.

Definition db_update_job (job : Job) : M unit :=
  run* connect in
  let* db := read_store in
  write_store (update_job db job).

Definition db_unlock_job (id : string) : M unit :=
  run* connect in
  let* db := read_store in
  let* now := utcnow in
  write_store (unlock_job db id now).

(** What [subprocess.run(job.command, shell=True, timeout=timeout, ..)]
    does: it returns with an exit status, raises [TimeoutExpired], or
    raises another exception because the process could not be run. *)
Inductive RunResult : Type :=
  | Returned (returncode : Z)
  | TimeoutExpired
  | RunnerError.

(** [Worker._execute_job]: [result.returncode == 0]; both [except]
    clauses [return False]. *)
Definition _execute_job (run : string -> RunResult) (job : Job) : bool :=
  match run (job_command job) with
  | Returned returncode => bool_decide (returncode = 0)
  | TimeoutExpired => false
  | RunnerError => false
  end.

(** The assignments of the [try] block of [_process_next_job] up to the
    call of [update_job]. *)
Definition resolve (success : bool) (job : Job) : Job :=
  if success then set_state COMPLETED job
  else
    let job := set_attempts (job_attempts job + 1) job in
    if bool_decide (job_attempts job >= job_max_retries job)
    then set_state DEAD job
    else set_state PENDING job.

(** [Worker._process_next_job].  The job is one Python object: the handler
    of the [try] block sees it as the block left it.  [update_job] is the
    only call of the block that can raise, so the handler starts from the
    job that was being written. *)
Definition _process_next_job (worker_id : string) (run : string -> RunResult)
    : M unit :=
  let* pending_jobs := db_get_pending_jobs in
  match pending_jobs with
  | [] => ret tt
  | job :: _ =>
      let* locked := db_lock_job (job_id job) worker_id in
      if negb locked then ret tt
      else
        let success := _execute_job run job in
        let job := resolve success job in
        let* now := utcnow in
        let job := set_updated_at now job in
        try_except
          (db_update_job job)
          (fun e =>
             let job := set_state FAILED job in
             let* now := utcnow in
             let job := set_updated_at now job in
             run* db_update_job job in
             db_unlock_job (job_id job))
  end.

(** One pass of the loop of [Worker.start]: what the command run in this
    tick does, and whether a shutdown signal (or [stop()]) arrives before
    the loop tests [self.running] again. *)
Record Tick : Type := mkTick {
  run : string -> RunResult;
  shutdown : bool
}.

(** How a run of the loop over a finite schedule of ticks ends. *)
Inductive LoopEnd : Type :=
  | Stopped      (* [self.running] became false: the loop left normally *)
  | StillRunning (* the schedule is used up and the loop would go on *).

(** [Worker.start]: [while self.running: self._process_next_job();
    time.sleep(..)].  An exception of the tick leaves the loop: the only
    [except] clause is for [KeyboardInterrupt]. *)
Fixpoint start (worker_id : string) (ticks : list Tick) : M LoopEnd :=
  match ticks with
  | [] => ret StillRunning
  | t :: ticks' =>
      run* _process_next_job worker_id (run t) in
      if shutdown t then ret Stopped else start worker_id ticks'
  end.

End Worker.

(** ** Claimants that run [lock_job] at the same time

    Each claimant has its own connection.  The [SELECT] of [lock_job] runs
    outside a transaction and the [UPDATE] opens one, so the statements of
    different claimants interleave statement by statement. *)

Module Claimants.

(** Where a claimant is inside [lock_job]. *)
Inductive Pc : Type :=
  | AtSelect
  | AtUpdate
  | Done (result : bool).

#[global] Instance Pc_eq_dec : EqDecision Pc.
Proof. solve_decision. Defined.

Record Claimant : Type := mkClaimant {
  worker_id : string;
  pc : Pc
}.

(** One statement of one claimant on the job [id], at time [now]. *)
Definition step (id : string) (now : Z) (c : Claimant) (db : Table)
    : Claimant * Table :=
  match pc c with
  | AtSelect =>
      if lock_job_select db id
      then (mkClaimant (worker_id c) (Done false), db)
      else (mkClaimant (worker_id c) AtUpdate, db)
  | AtUpdate =>
      let r := lock_job_update db id (worker_id c) now now in
      (mkClaimant (worker_id c) (Done r.1), r.2)
  | Done _ => (c, db)
  end.

(** A schedule names, statement after statement, the claimant that runs. *)
Fixpoint run_schedule (id : string) (now : Z) (sched : list nat)
    (cs : list Claimant) (db : Table) : list Claimant * Table :=
  match sched with
  | [] => (cs, db)
  | i :: sched' =>
      match cs !! i with
      | Some c =>
          let r := step id now c db in
          run_schedule id (now + 1) sched' (<[i := r.1]> cs) r.2
      | None => run_schedule id (now + 1) sched' cs db
      end
  end.

(** The claimants whose [lock_job] returned [True]. *)
Definition winners (cs : list Claimant) : list string :=
  worker_id <$> filter (fun c => pc c = Done true) cs.

(** The same attempts one after the other, each [lock_job] run to its end
    before the next starts. *)
Fixpoint claim_in_turn (id : string) (now : Z) (workers : list string)
    (db : Table) : list bool * Table :=
  match workers with
  | [] => ([], db)
  | w :: workers' =>
      let r := lock_job db id w now now in
      let rs := claim_in_turn id (now + 1) workers' r.2 in
      (r.1 :: rs.1, rs.2)
  end.

End Claimants.

(** ** The job lifecycle

    The tables that arise from the empty table by [enqueue] (with a retry
    ceiling of at least one), by worker ticks (with any command outcome, in
    any world: a tick whose store calls fail stops half way and shows the
    table between claim and resolution) and by [retry_dlq_job]. *)

Inductive reachable : Table -> Prop :=
  | reach_empty : reachable ∅
  | reach_enqueue cfg db cmd jid retries uuid12 now_c now_u job db' :
      reachable db ->
      QueueManager.enqueue cfg db cmd jid retries uuid12 now_c now_u
        = inr (job, db') ->
      1 <= job_max_retries job ->
      reachable db'
  | reach_tick db wid run clock reads fails calls :
      reachable db ->
      reachable
        (Worker.store
           (Worker._process_next_job wid run
              (Worker.mkWorld db clock reads fails calls)).2)
  | reach_retry db id now job db' :
      reachable db ->
      QueueManager.retry_dlq_job db id now = inr (job, db') ->
      reachable db'.

(** ** Sample tables and worlds

    The table of [TestDatabase]: one job [test1], as [Job(id="test1",
    command="echo hello")] and [add_job] leave it. *)

Definition test1_db : Table :=
  <["test1" := mkRow "echo hello" PENDING 0 3 0 0 None None]> ∅.

(** [test_unlock_job]: [lock_job("test1", "worker1")] and then
    [unlock_job("test1")]. *)
Definition test1_released : Table :=
  unlock_job (lock_job test1_db "test1" "worker1" 1 1).2 "test1" 2.

(** A job as [enqueue("false", job_id="job1", max_retries=2)] leaves it. *)
Definition false_job : Job := mkJob "job1" "false" PENDING 0 2 0 0.

Definition false_db : Table :=
  <["job1" := mkRow "false" PENDING 0 2 0 0 None None]> ∅.

(** A shell in which only [false] exits with a non-zero status. *)
Definition sh (cmd : string) : Worker.RunResult :=
  if bool_decide (cmd = "false") then Worker.Returned 1 else Worker.Returned 0.


(** A clock that advances with every reading, and stores that never fail,
    fail from the [n]-th call on, or fail at the [n]-th call only. *)
Definition ticking : nat -> Z := fun n => 100 + Z.of_nat n.
Definition never : nat -> bool := fun _ => false.
Definition from_call (n : nat) : nat -> bool := fun k => bool_decide (n <= k)%nat.
Definition at_call (n : nat) : nat -> bool := fun k => bool_decide (k = n).

Definition world_of (db : Table) (fails : nat -> bool) : Worker.World :=
  Worker.mkWorld db ticking 0 fails 0.

(** The table after the given ticks of [worker1], all in one world. *)
Definition after_ticks (ticks : list Worker.Tick) (w : Worker.World) : Table :=
  Worker.store (Worker.start "worker1" ticks w).2.

(** The configuration after [Config.set("max_retries", 0)]. *)
Definition zero_cfg : gmap string Z := <["max_retries" := 0]> Config.DEFAULTS.

(** Two claimants about to run [lock_job]. *)
Definition two_claimants (w1 w2 : string) : list Claimants.Claimant :=
  [Claimants.mkClaimant w1 Claimants.AtSelect;
   Claimants.mkClaimant w2 Claimants.AtSelect].

(** Both [SELECT]s first, then both [UPDATE]s. *)
Definition racing_schedule : list nat := [0%nat; 1%nat; 0%nat; 1%nat].

(** The next [n] store calls of the world do not fail. *)
Definition healthy_for (n : nat) (w : Worker.World) : Prop :=
  forall k : nat, (k < n)%nat -> Worker.fails w (Worker.calls w + k) = false.

(** The retry budget of a record with the given state, attempts and
    ceiling: the attempts stay within the ceiling, a pending job has budget
    left, and a dead job has used up exactly its budget. *)
Definition budget (s : JobState) (a m : Z) : Prop :=
  1 <= m /\ 0 <= a <= m /\ (s = PENDING -> a < m) /\ (s = DEAD -> a = m).

Definition within_budget (r : Row) : Prop :=
  budget (state r) (attempts r) (max_retries r).

Definition budget_ok (db : Table) : Prop :=
  forall id r, db !! id = Some r -> within_budget r.

(** What the row of the claimed job can be after a tick, given the row [r]
    it was before: still claimed by this worker (the resolution could not
    be written), completed, failed, or retried by the rule. *)
Definition tick_outcome (wid : string) (r r' : Row) : Prop :=
  command r' = command r /\ max_retries r' = max_retries r /\
  created_at r' = created_at r /\
  ((state r' = PROCESSING /\ attempts r' = attempts r /\
    locked_by r' = Some wid /\ locked_at r' <> None) \/
   (locked_at r' = None /\ locked_by r' = None /\
    ((state r' = COMPLETED /\ attempts r' = attempts r) \/
     (state r' = FAILED /\ attempts r <= attempts r' <= attempts r + 1) \/
     (attempts r' = attempts r + 1 /\
      state r' = if bool_decide (attempts r + 1 >= max_retries r)
                 then DEAD else PENDING)))).

(** The job [id] is the only one that a worker can claim. *)
Definition sole_pending (db : Table) (id : string) : Prop :=
  forall id' r', db !! id' = Some r' -> state r' = PENDING ->
                 locked_at r' = None -> id' = id.

(** A tick in which no shutdown arrives and the command [cmd] fails. *)
Definition failing_tick (cmd : string) (t : Worker.Tick) : Prop :=
  Worker.shutdown t = false /\
  forall job, job_command job = cmd ->
              Worker._execute_job (Worker.run t) job = false.


(** * Properties *)

(** ** The store *)

Section StoreFacts.

Implicit Types (db : Table) (r : Row) (job : Job).

(** When [add_job] and [enqueue] succeed. *)
Lemma add_job_inr db job db' :
  add_job db job = inr db' <->
  sqlite_integer (job_attempts job) = true /\
  sqlite_integer (job_max_retries job) = true /\
  db !! job_id job = None /\
  db' = <[job_id job :=
            mkRow (job_command job) (job_state job) (job_attempts job)
                  (job_max_retries job) (job_created_at job)
                  (job_updated_at job) None None]> db.
Proof.
  unfold add_job.
  destruct (sqlite_integer (job_attempts job));
    destruct (sqlite_integer (job_max_retries job)); cbn [negb andb];
    try (split; [done | by intros (? & ? & _)]).
  destruct (db !! job_id job).
  - split; [done | by intros (_ & _ & ? & _)].
  - split; [by intros [= <-] | by intros (_ & _ & _ & ->)].
Qed.

Lemma enqueue_inr cfg db cmd jid retries uuid12 now_c now_u job db' :
  QueueManager.enqueue cfg db cmd jid retries uuid12 now_c now_u
    = inr (job, db') <->
  job = mkJob (QueueManager.str_or jid uuid12) cmd PENDING 0
              (QueueManager.int_or retries (Config.get cfg "max_retries" 3))
              now_c now_u /\
  sqlite_integer (job_max_retries job) = true /\
  db !! job_id job = None /\
  db' = <[job_id job :=
            mkRow cmd PENDING 0 (job_max_retries job) now_c now_u
                  None None]> db.
Proof.
  unfold QueueManager.enqueue.
  set (j := mkJob _ cmd PENDING 0 _ now_c now_u).
  destruct (add_job db j) as [e|d] eqn:Ha.
  - split; [done|]. intros (-> & Hfit & Hn & ->).
    assert (Hok : add_job db j = inr (<[job_id j :=
              mkRow cmd PENDING 0 (job_max_retries j) now_c now_u None None]> db))
      by (apply add_job_inr; done).
    congruence.
  - apply add_job_inr in Ha as (_ & Hfit & Hn & ->). split.
    + intros [= <- <-]. done.
    + intros (-> & _ & _ & ->). done.
Qed.

Lemma lock_job_select_unlocked db id r :
  db !! id = Some r -> locked_at r = None -> lock_job_select db id = false.
Proof.
  intros Hr Hl. unfold lock_job_select. rewrite Hr, Hl.
  apply bool_decide_eq_false. auto.
Qed.

Lemma lock_job_select_locked db id r :
  db !! id = Some r -> locked_at r <> None -> lock_job_select db id = true.
Proof.
  intros Hr Hl. unfold lock_job_select. rewrite Hr.
  by apply bool_decide_eq_true.
Qed.

Lemma lock_job_select_true db id :
  lock_job_select db id = true ->
  exists r, db !! id = Some r /\ locked_at r <> None.
Proof.
  unfold lock_job_select. destruct (db !! id) as [r|]; [|done].
  intros H%bool_decide_eq_true. eauto.
Qed.

Lemma lock_job_update_some db id w now_lock now_upd r :
  db !! id = Some r ->
  lock_job_update db id w now_lock now_upd =
    (true, <[id := mkRow (command r) PROCESSING (attempts r) (max_retries r)
                         (created_at r) now_upd (Some now_lock) (Some w)]> db).
Proof. intros Hr. unfold lock_job_update. by rewrite Hr. Qed.

Lemma update_job_lookup db job r :
  db !! job_id job = Some r ->
  update_job db job !! job_id job =
    Some (mkRow (job_command job) (job_state job) (job_attempts job)
                (job_max_retries job) (created_at r) (job_updated_at job)
                None None).
Proof. intros Hr. unfold update_job. rewrite Hr. apply lookup_insert_eq. Qed.

Lemma update_job_lookup_ne db job id :
  id <> job_id job -> update_job db job !! id = db !! id.
Proof.
  intros Hne. unfold update_job. destruct (db !! job_id job); [|done].
  by rewrite lookup_insert_ne.
Qed.

Lemma unlock_job_lookup db id now r :
  db !! id = Some r ->
  unlock_job db id now !! id =
    Some (mkRow (command r) (state r) (attempts r) (max_retries r)
                (created_at r) now None None).
Proof. intros Hr. unfold unlock_job. rewrite Hr. apply lookup_insert_eq. Qed.

Lemma unlock_job_lookup_ne db id id' now :
  id' <> id -> unlock_job db id now !! id' = db !! id'.
Proof.
  intros Hne. unfold unlock_job. destruct (db !! id); [|done].
  by rewrite lookup_insert_ne.
Qed.

(** Every job returned by [get_pending_jobs] is a row of the table that is
    pending and unlocked. *)
Lemma get_pending_jobs_elem db job :
  job ∈ get_pending_jobs db ->
  exists r, db !! job_id job = Some r /\ state r = PENDING /\
            locked_at r = None /\ job = _row_to_job (job_id job, r).
Proof.
  unfold get_pending_jobs. intros H.
  apply list_elem_of_fmap in H as [[k r] [-> H]].
  rewrite merge_sort_Permutation in H.
  apply list_elem_of_filter in H as [[Hs Hl] H].
  apply elem_of_map_to_list in H. simpl in *. eauto.
Qed.

Lemma get_pending_jobs_head db job rest :
  get_pending_jobs db = job :: rest ->
  exists r, db !! job_id job = Some r /\ state r = PENDING /\
            locked_at r = None /\ job = _row_to_job (job_id job, r).
Proof.
  intros H. apply get_pending_jobs_elem. rewrite H. left.
Qed.

End StoreFacts.

(** ** Claiming a job *)

Section Claim.

Implicit Types (db : Table) (r : Row).

(** The row that a successful claim writes. *)
Lemma lock_job_unlocked db id w now_lock now_upd r :
  db !! id = Some r -> locked_at r = None ->
  lock_job db id w now_lock now_upd =
    (true, <[id := mkRow (command r) PROCESSING (attempts r) (max_retries r)
                         (created_at r) now_upd (Some now_lock) (Some w)]> db).
Proof.
  intros Hr Hl. unfold lock_job, lock_job_update.
  by rewrite (lock_job_select_unlocked _ _ _ Hr Hl), Hr.
Qed.

Lemma lock_job_locked db id w now_lock now_upd r :
  db !! id = Some r -> locked_at r <> None ->
  lock_job db id w now_lock now_upd = (false, db).
Proof.
  intros Hr Hl. unfold lock_job.
  by rewrite (lock_job_select_locked _ _ _ Hr Hl).
Qed.

(** X16, [test_lock_job]: attempts made one after the other have one
    winner, the first. *)
Lemma claim_in_turn_one_winner db id r w workers now :
  db !! id = Some r -> locked_at r = None ->
  (Claimants.claim_in_turn id now (w :: workers) db).1
    = true :: replicate (length workers) false.
Proof.
  intros Hr Hl. simpl. rewrite (lock_job_unlocked _ _ _ _ _ _ Hr Hl). simpl.
  f_equal.
  set (db1 := <[id := _]> db).
  assert (exists r1, db1 !! id = Some r1 /\ locked_at r1 <> None) as Hlocked.
  { eexists. split; [apply lookup_insert_eq | done]. }
  clearbody db1. clear Hr Hl.
  generalize (now + 1). revert Hlocked.
  induction workers as [|w' ws IH]; intros (r1 & Hr1 & Hl1) t; [done|].
  simpl. rewrite (lock_job_locked _ _ _ _ _ _ Hr1 Hl1). simpl.
  f_equal. apply IH. eauto.
Qed.

(** C1, evaluated on the code: [lock_job] is a [SELECT] followed by an
    [UPDATE] whose [WHERE] clause does not test the lock.  When two
    claimants with different identities both run their [SELECT] on an
    unlocked job before either runs its [UPDATE], both calls return [True]:
    there are two winners, and the row names the second writer. *)
Theorem lock_job_race_two_winners db id r (w1 w2 : string) now :
  db !! id = Some r -> locked_at r = None -> w1 <> w2 ->
  let res := Claimants.run_schedule id now racing_schedule
               (two_claimants w1 w2) db in
  Claimants.winners res.1 = [w1; w2] /\
  exists r', res.2 !! id = Some r' /\ state r' = PROCESSING /\
             locked_by r' = Some w2.
Proof.
  intros Hr Hl Hne.
  assert (Hsel : lock_job_select db id = false)
    by exact (lock_job_select_unlocked _ _ _ Hr Hl).
  unfold racing_schedule, two_claimants.
  cbn [Claimants.run_schedule lookup list_lookup insert list_insert
       Claimants.step Claimants.pc Claimants.worker_id fst snd].
  rewrite Hsel.
  cbn [Claimants.run_schedule lookup list_lookup insert list_insert
       Claimants.step Claimants.pc Claimants.worker_id fst snd].
  rewrite Hsel.
  cbn [Claimants.run_schedule lookup list_lookup insert list_insert
       Claimants.step Claimants.pc Claimants.worker_id fst snd].
  unfold lock_job_update. rewrite Hr.
  cbn [fst snd]. rewrite lookup_insert_eq. cbn [fst snd].
  split; [reflexivity|].
  eexists. split; [apply lookup_insert_eq|]. done.
Qed.

Lemma lock_job_race_two_winners_witness :
  test1_db !! "test1" = Some (mkRow "echo hello" PENDING 0 3 0 0 None None) /\
  Claimants.winners
    (Claimants.run_schedule "test1" 1 racing_schedule
       (two_claimants "worker1" "worker2") test1_db).1
  = ["worker1"; "worker2"].
Proof.
  split; [reflexivity|].
  apply (lock_job_race_two_winners test1_db "test1"
           (mkRow "echo hello" PENDING 0 3 0 0 None None)
           "worker1" "worker2" 1); [reflexivity | reflexivity | discriminate].
Defined.

(** C2 as stated fails on [test_unlock_job]: the released job is unlocked
    and in state [PROCESSING], not [PENDING], and [lock_job] claims it. *)
Lemma lock_job_claims_released_processing_job :
  exists r, test1_released !! "test1" = Some r /\
    ~ ((lock_job test1_released "test1" "worker2" 3 3).1 = true <->
       (locked_at r = None /\ state r = PENDING)).
Proof.
  exists (mkRow "echo hello" PROCESSING 0 3 0 2 None None).
  split; [reflexivity|].
  intros [H _]. assert (Hs : (lock_job test1_released "test1" "worker2" 3 3).1 = true)
    by reflexivity.
  destruct (H Hs) as [_ Hp]. discriminate Hp.
Qed.

(** C2, amended: for a job of the table, [lock_job] succeeds if and only if
    the job was unlocked, whatever its state; on success the row gets
    [state = PROCESSING], [locked_at] the current time and [locked_by] the
    worker's identity ([updated_at] is set, nothing else changes); on a
    locked job it returns [False] and the table is unchanged. *)
Theorem lock_job_spec db id w now_lock now_upd r :
  db !! id = Some r ->
  ((lock_job db id w now_lock now_upd).1 = true <-> locked_at r = None) /\
  (locked_at r = None ->
     (lock_job db id w now_lock now_upd).2 =
       <[id := mkRow (command r) PROCESSING (attempts r) (max_retries r)
                     (created_at r) now_upd (Some now_lock) (Some w)]> db) /\
  (locked_at r <> None -> lock_job db id w now_lock now_upd = (false, db)).
Proof.
  intros Hr. split; [|split].
  - destruct (locked_at r) as [t|] eqn:Hl.
    + rewrite (lock_job_locked _ _ _ _ _ r Hr) by (rewrite Hl; done).
      split; discriminate.
    + by rewrite (lock_job_unlocked _ _ _ _ _ r Hr Hl).
  - intros Hl. by rewrite (lock_job_unlocked _ _ _ _ _ r Hr Hl).
  - intros Hl. by apply lock_job_locked with r.
Qed.

Lemma lock_job_spec_witness :
  test1_db !! "test1" = Some (mkRow "echo hello" PENDING 0 3 0 0 None None) /\
  (lock_job test1_db "test1" "worker1" 1 1).1 = true.
Proof.
  split; [reflexivity|].
  apply (lock_job_spec test1_db "test1" "worker1" 1 1
           (mkRow "echo hello" PENDING 0 3 0 0 None None)); reflexivity.
Defined.

End Claim.

(** ** One tick of a worker *)

Import Worker.

(** Reduce the monadic plumbing of a tick and use the facts at hand about
    the store calls and the table. *)
Ltac tick_simpl :=
  cbn [store clock reads fails calls fst snd negb job_id set_updated_at
       set_state].

Ltac tick_unfold :=
  unfold _process_next_job, db_get_pending_jobs, db_lock_job, db_update_job,
    db_unlock_job, try_except, bind, connect, read_store, write_store,
    utcnow, ret.

Ltac tick_run rew := tick_unfold; repeat (tick_simpl; progress rew); tick_simpl.

Section Tick.

Implicit Types (db : Table) (r : Row) (job : Job) (w : World).

Lemma job_id_resolve success job :
  job_id (resolve success job) = job_id job.
Proof.
  unfold resolve. destruct success; [done|].
  by destruct (bool_decide _).
Qed.


Lemma job_command_resolve success job :
  job_command (resolve success job) = job_command job.
Proof.
  unfold resolve. destruct success; [done|].
  by destruct (bool_decide _).
Qed.

Lemma job_max_retries_resolve success job :
  job_max_retries (resolve success job) = job_max_retries job.
Proof.
  unfold resolve. destruct success; [done|].
  by destruct (bool_decide _).
Qed.


(** The tick whose store calls all succeed: fetch, claim, resolve with
    one [update_job]. *)
Lemma _process_next_job_healthy wid run w job rest :
  get_pending_jobs (store w) = job :: rest ->
  healthy_for 3 w ->
  _process_next_job wid run w =
    (inr tt,
     mkWorld
       (update_job
          (lock_job (store w) (job_id job) wid
             (clock w (reads w)) (clock w (S (reads w)))).2
          (set_updated_at (clock w (S (S (reads w))))
             (resolve (_execute_job run job) job)))
       (clock w) (S (S (S (reads w)))) (fails w) (S (S (S (calls w))))).
Proof.
  intros Hp Hh.
  destruct (get_pending_jobs_head _ _ _ Hp) as (r & Hr & Hs & Hl & Hj).
  pose proof (Hh 0%nat ltac:(lia)) as H0.
  pose proof (Hh 1%nat ltac:(lia)) as H1.
  pose proof (Hh 2%nat ltac:(lia)) as H2.
  rewrite Nat.add_0_r in H0.
  replace (calls w + 1)%nat with (S (calls w)) in H1 by lia.
  replace (calls w + 2)%nat with (S (S (calls w))) in H2 by lia.
  pose proof (lock_job_select_unlocked _ _ _ Hr Hl) as Hsel.
  pose proof (fun a b c => lock_job_update_some _ _ a b c _ Hr) as Hupd.
  unfold lock_job. rewrite Hsel, !Hupd.
  tick_run ltac:(first [rewrite H0 | rewrite H1 | rewrite H2 | rewrite Hp
                       | rewrite Hsel | rewrite Hupd
                       | rewrite job_id_resolve]).
  reflexivity.
Qed.


(** The tick whose resolving [update_job] raises and whose handler cannot
    write either: the exception leaves [_process_next_job] and the job
    stays claimed. *)
Lemma _process_next_job_handler_fails wid run w job rest :
  get_pending_jobs (store w) = job :: rest ->
  healthy_for 2 w ->
  fails w (calls w + 2) = true ->
  fails w (calls w + 3) = true ->
  _process_next_job wid run w =
    (inl OperationalError,
     mkWorld
       (lock_job (store w) (job_id job) wid
          (clock w (reads w)) (clock w (S (reads w)))).2
       (clock w) (S (S (S (S (reads w))))) (fails w)
       (S (S (S (S (calls w)))))).
Proof.
  intros Hp Hh H2 H3.
  destruct (get_pending_jobs_head _ _ _ Hp) as (r & Hr & Hs & Hl & Hj).
  pose proof (Hh 0%nat ltac:(lia)) as H0.
  pose proof (Hh 1%nat ltac:(lia)) as H1.
  rewrite Nat.add_0_r in H0.
  replace (calls w + 1)%nat with (S (calls w)) in H1 by lia.
  replace (calls w + 2)%nat with (S (S (calls w))) in H2 by lia.
  replace (calls w + 3)%nat with (S (S (S (calls w)))) in H3 by lia.
  pose proof (lock_job_select_unlocked _ _ _ Hr Hl) as Hsel.
  pose proof (fun a b c => lock_job_update_some _ _ a b c _ Hr) as Hupd.
  unfold lock_job. rewrite Hsel, !Hupd.
  tick_run ltac:(first [rewrite H0 | rewrite H1 | rewrite H2 | rewrite H3
                       | rewrite Hp | rewrite Hsel | rewrite Hupd
                       | rewrite job_id_resolve]).
  reflexivity.
Qed.

(** The row of the claimed job after a tick in which the command failed
    and every store call succeeded. *)
Lemma failed_tick_row wid run w job rest :
  get_pending_jobs (store w) = job :: rest ->
  healthy_for 3 w ->
  _execute_job run job = false ->
  (_process_next_job wid run w).1 = inr tt /\
  exists r,
    store w !! job_id job = Some r /\
    store (_process_next_job wid run w).2 !! job_id job =
      Some (mkRow (job_command job)
              (if bool_decide (job_attempts job + 1 >= job_max_retries job)
               then DEAD else PENDING)
              (job_attempts job + 1) (job_max_retries job) (created_at r)
              (clock w (S (S (reads w)))) None None).
Proof.
  intros Hp Hh Hx.
  rewrite (_process_next_job_healthy _ _ _ _ _ Hp Hh), Hx.
  destruct (get_pending_jobs_head _ _ _ Hp) as (r & Hr & Hs & Hl & Hj).
  split; [done|]. exists r. split; [done|].
  rewrite (lock_job_unlocked _ _ _ _ _ _ Hr Hl). cbn [snd store].
  unfold resolve. cbn [set_attempts job_attempts job_max_retries].
  destruct (bool_decide (job_attempts job + 1 >= job_max_retries job));
    (match goal with
     | |- update_job ?d ?j !! _ = _ =>
         pose proof (update_job_lookup d j) as HU;
         cbn [job_id set_updated_at set_state set_attempts] in HU;
         rewrite (HU _ (lookup_insert_eq _ _ _)); reflexivity
     end).
Qed.



End Tick.

(** ** The queue manager *)

Section Queue.

Implicit Types (db : Table) (r : Row) (cfg : gmap string Z).

(** C4: [retry_dlq_job] fails with [NotFound] when the table has no job
    with that id; it fails with [StateConflict], before any write to the
    table, when the job is in one of the states [PENDING], [PROCESSING],
    [COMPLETED], [FAILED]; on a [DEAD] job it succeeds, and the job is then
    [PENDING] with [attempts = 0] and both lock columns [NULL], all other
    jobs being as before. *)
Theorem retry_dlq_job_spec db id now :
  (db !! id = None ->
     exists e, QueueManager.retry_dlq_job db id now = inl e /\
               kind_of e = NotFound) /\
  (forall r, db !! id = Some r ->
     state r = PENDING \/ state r = PROCESSING \/ state r = COMPLETED \/
     state r = FAILED ->
     exists e, QueueManager.retry_dlq_job db id now = inl e /\
               kind_of e = StateConflict) /\
  (forall r, db !! id = Some r -> state r = DEAD ->
     exists job db',
       QueueManager.retry_dlq_job db id now = inr (job, db') /\
       job_id job = id /\ job_state job = PENDING /\ job_attempts job = 0 /\
       db' !! id =
         Some (mkRow (command r) PENDING 0 (max_retries r) (created_at r)
                     now None None) /\
       forall id', id' <> id -> db' !! id' = db !! id').
Proof.
  unfold QueueManager.retry_dlq_job, get_job. split; [|split].
  - intros ->. simpl. eauto.
  - intros r -> Hs. simpl.
    rewrite bool_decide_eq_true_2
      by (destruct Hs as [->|[->|[->| ->]]]; discriminate).
    eauto.
  - intros r Hr Hs. rewrite Hr. simpl. rewrite Hs.
    rewrite bool_decide_eq_false_2 by (intros H; by apply H).
    eexists _, _. split; [reflexivity|].
    cbn [job_id job_state job_attempts set_updated_at set_attempts set_state
         _row_to_job fst snd].
    repeat (split; [reflexivity|]).
    split.
    + exact (update_job_lookup db
               (set_updated_at now
                  (set_attempts 0 (set_state PENDING (_row_to_job (id, r)))))
               r Hr).
    + intros id' Hne. by apply update_job_lookup_ne.
Qed.

Lemma retry_dlq_job_spec_witness :
  test1_db !! "test1" = Some (mkRow "echo hello" PENDING 0 3 0 0 None None) /\
  exists e, QueueManager.retry_dlq_job test1_db "test1" 5 = inl e /\
            kind_of e = StateConflict.
Proof.
  split; [reflexivity|].
  apply (proj1 (proj2 (retry_dlq_job_spec test1_db "test1" 5))
           (mkRow "echo hello" PENDING 0 3 0 0 None None)).
  - reflexivity.
  - left. reflexivity.
Defined.

(** C5 as stated fails: [enqueue] has no check on the command, and the
    empty command is enqueued like any other; no exception of [enqueue]
    stands for a validation error. *)
Lemma enqueue_accepts_empty_command :
  QueueManager.enqueue Config.DEFAULTS ∅ "" None None "0f8fad5b-d9c" 7 7
    = inr (mkJob "0f8fad5b-d9c" "" PENDING 0 3 7 7,
           <["0f8fad5b-d9c" := mkRow "" PENDING 0 3 7 7 None None]> ∅) /\
  ~ (exists e,
       QueueManager.enqueue Config.DEFAULTS ∅ "" None None "0f8fad5b-d9c" 7 7
         = inl e /\ kind_of e = ValidationError).
Proof.
  split; [reflexivity|]. intros (e & He & _). discriminate He.
Qed.

(** C5, amended: [enqueue] does not validate the command.  No call of
    [enqueue] fails with a validation error; for every command, the empty
    one included, the job that [enqueue] creates has [state = PENDING] and
    [attempts = 0] and is stored as it is returned; and [enqueue] creates
    the job whenever the insert is accepted: the id is not in the table yet
    and [max_retries] fits an [INTEGER] column. *)
Theorem enqueue_spec cfg db cmd jid retries uuid12 now_c now_u :
  (forall e,
     QueueManager.enqueue cfg db cmd jid retries uuid12 now_c now_u = inl e ->
     kind_of e <> ValidationError) /\
  (forall job db',
     QueueManager.enqueue cfg db cmd jid retries uuid12 now_c now_u
       = inr (job, db') ->
     job_command job = cmd /\ job_state job = PENDING /\
     job_attempts job = 0 /\
     get_job db' (job_id job) = Some job) /\
  (db !! QueueManager.str_or jid uuid12 = None ->
   sqlite_integer
     (QueueManager.int_or retries (Config.get cfg "max_retries" 3)) = true ->
   exists job db',
     QueueManager.enqueue cfg db cmd jid retries uuid12 now_c now_u
       = inr (job, db')).
Proof.
  split; [|split].
  - intros e. unfold QueueManager.enqueue, add_job.
    destruct (negb _); [by intros [= <-]|].
    destruct (db !! _); [by intros [= <-] | done].
  - intros job db' He. apply enqueue_inr in He as (-> & _ & _ & ->).
    repeat (split; [reflexivity|]).
    unfold get_job. cbn [job_id]. by rewrite lookup_insert_eq.
  - intros Hn Hfit. eexists _, _. apply enqueue_inr. done.
Qed.

Lemma enqueue_spec_witness :
  (∅ : Table) !! QueueManager.str_or None "0f8fad5b-d9c" = None /\
  sqlite_integer
    (QueueManager.int_or None (Config.get Config.DEFAULTS "max_retries" 3))
    = true /\
  exists job db',
    QueueManager.enqueue Config.DEFAULTS ∅ "" None None "0f8fad5b-d9c" 7 7
      = inr (job, db') /\
    job_command job = "" /\ job_state job = PENDING /\ job_attempts job = 0.
Proof.
  assert (Hn : (∅ : Table) !! QueueManager.str_or None "0f8fad5b-d9c" = None)
    by reflexivity.
  assert (Hfit : sqlite_integer
                   (QueueManager.int_or None
                      (Config.get Config.DEFAULTS "max_retries" 3)) = true)
    by reflexivity.
  split; [exact Hn|]. split; [exact Hfit|].
  destruct (enqueue_spec Config.DEFAULTS ∅ "" None None "0f8fad5b-d9c" 7 7)
    as (_ & Hpost & Hex).
  destruct (Hex Hn Hfit) as (job & db' & He).
  exists job, db'. split; [exact He|].
  destruct (Hpost job db' He) as (Hc & Hs & Ha & _).
  split; [exact Hc|]. split; [exact Hs | exact Ha].
Defined.

(** C10 as stated fails when the configured default is itself [0]: the
    explicit [0] is coalesced to the default [0], and the job is created
    with [max_retries = 0], not [3]. *)
Lemma enqueue_zero_with_zero_default :
  QueueManager.enqueue zero_cfg ∅ "false" (Some "job1") (Some 0)
    "0f8fad5b-d9c" 7 7
    = inr (mkJob "job1" "false" PENDING 0 0 7 7,
           <["job1" := mkRow "false" PENDING 0 0 7 7 None None]> ∅) /\
  ~ (forall job db',
       QueueManager.enqueue zero_cfg ∅ "false" (Some "job1") (Some 0)
         "0f8fad5b-d9c" 7 7 = inr (job, db') ->
       job_max_retries job = 3 /\ job_max_retries job <> 0).
Proof.
  assert (He : QueueManager.enqueue zero_cfg ∅ "false" (Some "job1") (Some 0)
                 "0f8fad5b-d9c" 7 7
               = inr (mkJob "job1" "false" PENDING 0 0 7 7,
                      <["job1" := mkRow "false" PENDING 0 0 7 7 None None]> ∅))
    by reflexivity.
  split; [exact He|]. intros H. destruct (H _ _ He) as [H3 _]. discriminate H3.
Qed.

(** C10, amended: an explicit [max_retries] of [0] is falsy, so [enqueue]
    creates the job with the configured default in its place, which is [3]
    in [DEFAULTS] and when the key is not configured; a job with
    [max_retries = 0] is created only when the configured default is
    itself [0]. *)
Theorem enqueue_zero_max_retries cfg db cmd jid uuid12 now_c now_u :
  Config.get Config.DEFAULTS "max_retries" 3 = 3 /\
  Config.get ∅ "max_retries" 3 = 3 /\
  (forall job db',
     QueueManager.enqueue cfg db cmd jid (Some 0) uuid12 now_c now_u
       = inr (job, db') ->
     job_max_retries job = Config.get cfg "max_retries" 3 /\
     (max_retries <$> db' !! job_id job)
       = Some (Config.get cfg "max_retries" 3)) /\
  (db !! QueueManager.str_or jid uuid12 = None ->
   sqlite_integer (Config.get cfg "max_retries" 3) = true ->
   exists job db',
     QueueManager.enqueue cfg db cmd jid (Some 0) uuid12 now_c now_u
       = inr (job, db')) /\
  (forall retries job db',
     QueueManager.enqueue cfg db cmd jid retries uuid12 now_c now_u
       = inr (job, db') ->
     job_max_retries job = 0 ->
     Config.get cfg "max_retries" 3 = 0).
Proof.
  split; [reflexivity|]. split; [reflexivity|]. split; [|split].
  - intros job db' He. apply enqueue_inr in He as (-> & _ & _ & ->).
    cbn [job_max_retries job_id]. split; [reflexivity|].
    by rewrite lookup_insert_eq.
  - intros Hn Hfit. eexists _, _. apply enqueue_inr. done.
  - intros retries job db' He. apply enqueue_inr in He as (-> & _ & _ & _).
    cbn [job_max_retries]. unfold QueueManager.int_or.
    destruct retries as [n|]; [|done].
    case_bool_decide; [done|]. intros ->. done.
Qed.

Lemma enqueue_zero_max_retries_witness :
  (∅ : Table) !! QueueManager.str_or (Some "job1") "0f8fad5b-d9c" = None /\
  sqlite_integer (Config.get Config.DEFAULTS "max_retries" 3) = true /\
  exists job db',
    QueueManager.enqueue Config.DEFAULTS ∅ "false" (Some "job1") (Some 0)
      "0f8fad5b-d9c" 7 7 = inr (job, db') /\
    job_max_retries job = 3.
Proof.
  assert (Hfresh : (∅ : Table) !! QueueManager.str_or (Some "job1") "0f8fad5b-d9c"
                   = None) by reflexivity.
  assert (Hfit : sqlite_integer (Config.get Config.DEFAULTS "max_retries" 3)
                 = true) by reflexivity.
  split; [exact Hfresh|]. split; [exact Hfit|].
  destruct (enqueue_zero_max_retries Config.DEFAULTS ∅ "false" (Some "job1")
              "0f8fad5b-d9c" 7 7) as (H3 & _ & Hval & Hex & _).
  destruct (Hex Hfresh Hfit) as (job & db' & He).
  exists job, db'. split; [exact He|].
  destruct (Hval job db' He) as [Hm _]. rewrite Hm. exact H3.
Defined.

End Queue.

(** ** Statistics *)

Section Stats.

Implicit Types (db : Table) (m : gmap string Z) (s : JobState).

Lemma count_state_nonneg db s : 0 <= count_state db s.
Proof. unfold count_state. lia. Qed.

Lemma foldl_omap_cons {A B C} (g : C -> B -> C) (f : A -> option B) a l acc :
  foldl g acc (omap f (a :: l)) =
  foldl g (match f a with Some b => g acc b | None => acc end) (omap f l).
Proof. cbn. by destruct (f a). Qed.

(** One result row of the [GROUP BY], stored under its own key and seen
    from another key. *)
Lemma stats_row_lookup_eq (b : bool) k v m :
  match (if b then Some (k, v) else None) with
  | Some sc => <[sc.1 := sc.2]> m
  | None => m
  end !! k = if b then Some v else m !! k.
Proof. destruct b; [apply lookup_insert_eq | done]. Qed.

Lemma stats_row_lookup_ne (b : bool) k v m k' :
  k <> k' ->
  match (if b then Some (k, v) else None) with
  | Some sc => <[sc.1 := sc.2]> m
  | None => m
  end !! k' = m !! k'.
Proof. intros Hne. destruct b; [by apply lookup_insert_ne | done]. Qed.

Lemma setdefault_lookup_eq k v m :
  setdefault k v m !! k = Some (default v (m !! k)).
Proof.
  unfold setdefault. destruct (m !! k) eqn:Hk; [done|].
  by rewrite lookup_insert_eq.
Qed.

Lemma setdefault_lookup_ne k v m k' :
  k <> k' -> setdefault k v m !! k' = m !! k'.
Proof.
  intros Hne. unfold setdefault. destruct (m !! k); [done|].
  by rewrite lookup_insert_ne.
Qed.

Ltac stats_lookup :=
  repeat first
    [ rewrite setdefault_lookup_eq
    | rewrite setdefault_lookup_ne by done
    | rewrite stats_row_lookup_eq
    | rewrite stats_row_lookup_ne by done
    | rewrite lookup_empty ].

(** The store's statistics hold, for every state, the number of jobs in
    that state. *)
Lemma get_stats_lookup db s :
  Database.get_stats db !! value s = Some (count_state db s).
Proof.
  pose proof (count_state_nonneg db s) as Hnn.
  unfold Database.get_stats, select_state_counts, all_states.
  rewrite !foldl_omap_cons. cbn [omap list_omap foldl].
  destruct s; cbn [value]; stats_lookup;
    (case_bool_decide; cbn [default]; f_equal; lia).
Qed.

(** They hold nothing else. *)
Lemma get_stats_lookup_other db k :
  (forall s, k <> value s) -> Database.get_stats db !! k = None.
Proof.
  intros Hk.
  pose proof (Hk PENDING). pose proof (Hk PROCESSING).
  pose proof (Hk COMPLETED). pose proof (Hk FAILED). pose proof (Hk DEAD).
  cbn [value] in *.
  unfold Database.get_stats, select_state_counts, all_states.
  rewrite !foldl_omap_cons. cbn [omap list_omap foldl value].
  by stats_lookup.
Qed.

Lemma get_stats_canonical db :
  Database.get_stats db =
    <[value PENDING := count_state db PENDING]>
      (<[value PROCESSING := count_state db PROCESSING]>
         (<[value COMPLETED := count_state db COMPLETED]>
            (<[value FAILED := count_state db FAILED]>
               (<[value DEAD := count_state db DEAD]> ∅)))).
Proof.
  apply map_eq. intros k.
  destruct (decide (k = value PENDING)) as [->|H1];
    [rewrite get_stats_lookup; by rewrite lookup_insert_eq|].
  destruct (decide (k = value PROCESSING)) as [->|H2];
    [rewrite get_stats_lookup; by simplify_map_eq|].
  destruct (decide (k = value COMPLETED)) as [->|H3];
    [rewrite get_stats_lookup; by simplify_map_eq|].
  destruct (decide (k = value FAILED)) as [->|H4];
    [rewrite get_stats_lookup; by simplify_map_eq|].
  destruct (decide (k = value DEAD)) as [->|H5];
    [rewrite get_stats_lookup; by simplify_map_eq|].
  rewrite get_stats_lookup_other by (by intros []).
  by simplify_map_eq.
Qed.

Lemma sum_values_get_stats db :
  QueueManager.sum_values (Database.get_stats db) =
    count_state db PENDING + count_state db PROCESSING +
    count_state db COMPLETED + count_state db FAILED + count_state db DEAD.
Proof.
  rewrite get_stats_canonical. unfold QueueManager.sum_values.
  rewrite !map_fold_insert_L; [rewrite map_fold_empty; lia| ..];
    first [ intros; lia | by simplify_map_eq ].
Qed.

(** Every row is counted under exactly one state. *)
Lemma count_state_partition db :
  count_state db PENDING + count_state db PROCESSING +
  count_state db COMPLETED + count_state db FAILED + count_state db DEAD
  = Z.of_nat (size db).
Proof.
  unfold count_state. rewrite <- length_map_to_list.
  induction (map_to_list db) as [|kr l IH]; [done|].
  rewrite !filter_cons. cbn [length].
  destruct (state kr.2); repeat case_decide; try done; cbn [length]; lia.
Qed.

(** C9: for every table, the empty one included, the store's statistics
    have an entry for each of the five states, which is the number of jobs
    in that state and so [0] for a state without jobs; the [total] of the
    queue manager's statistics is the sum of its five named counts, the sum
    of the values of the store's statistics, and the number of jobs in the
    table. *)
Theorem get_stats_total db :
  (forall s, Database.get_stats db !! value s = Some (count_state db s)) /\
  (forall s, Database.get_stats ∅ !! value s = Some 0) /\
  QueueManager.total (QueueManager.get_stats db) =
    QueueManager.pending (QueueManager.get_stats db) +
    QueueManager.processing (QueueManager.get_stats db) +
    QueueManager.completed (QueueManager.get_stats db) +
    QueueManager.failed (QueueManager.get_stats db) +
    QueueManager.dead (QueueManager.get_stats db) /\
  QueueManager.total (QueueManager.get_stats db) =
    QueueManager.sum_values (Database.get_stats db) /\
  QueueManager.total (QueueManager.get_stats db) = Z.of_nat (size db).
Proof.
  split; [apply get_stats_lookup|].
  split; [intros s; by rewrite get_stats_lookup|].
  unfold QueueManager.get_stats.
  cbn [QueueManager.total QueueManager.pending QueueManager.processing
       QueueManager.completed QueueManager.failed QueueManager.dead].
  unfold dict_get. rewrite !get_stats_lookup, sum_values_get_stats.
  split; [reflexivity|]. split; [reflexivity|].
  apply count_state_partition.
Qed.

End Stats.

(** ** Errors while a job is resolved *)

Section Resolution.

Implicit Types (db : Table) (r : Row) (job : Job) (w : World).




(** ** The polling loop *)


(** The two ways a pass of the loop goes on. *)
Lemma start_cons_raises wid t ticks w e w' :
  _process_next_job wid (Worker.run t) w = (inl e, w') ->
  start wid (t :: ticks) w = (inl e, w').
Proof. intros H. cbn [start]. unfold bind. by rewrite H. Qed.

Lemma start_cons_returns wid t ticks w w' :
  _process_next_job wid (Worker.run t) w = (inr tt, w') ->
  start wid (t :: ticks) w =
    if shutdown t then (inr Stopped, w') else start wid ticks w'.
Proof.
  intros H. cbn [start]. unfold bind. rewrite H. by destruct (shutdown t).
Qed.


(** C8, evaluated on the code: when the [update_job] of the resolution
    raises and the [update_job] of the handler raises as well, the
    exception leaves [_process_next_job] and [start]: the loop ends with a
    persistence error, although no shutdown was requested and ticks remain,
    and the job stays claimed. *)
Theorem start_ends_on_store_failure wid t ticks w job rest :
  get_pending_jobs (store w) = job :: rest ->
  healthy_for 2 w ->
  fails w (calls w + 2) = true ->
  fails w (calls w + 3) = true ->
  shutdown t = false ->
  (exists e, (start wid (t :: ticks) w).1 = inl e /\
             kind_of e = PersistenceError) /\
  exists r,
    store (start wid (t :: ticks) w).2 !! job_id job = Some r /\
    state r = PROCESSING /\ locked_by r = Some wid.
Proof.
  intros Hp Hh H2 H3 _.
  destruct (get_pending_jobs_head _ _ _ Hp) as (r & Hr & Hs & Hl & Hj).
  rewrite (start_cons_raises _ _ _ _ _ _
             (_process_next_job_handler_fails _ _ _ _ _ Hp Hh H2 H3)).
  rewrite (lock_job_unlocked _ _ _ _ _ _ Hr Hl). cbn [fst snd store].
  split; [eauto|].
  eexists. split; [apply lookup_insert_eq|]. done.
Qed.

Lemma start_ends_on_store_failure_witness :
  get_pending_jobs (store (world_of false_db (from_call 2))) = [false_job] /\
  healthy_for 2 (world_of false_db (from_call 2)) /\
  exists e,
    (start "worker1" [mkTick sh false; mkTick sh false]
       (world_of false_db (from_call 2))).1 = inl e /\
    kind_of e = PersistenceError.
Proof.
  assert (Hp : get_pending_jobs (store (world_of false_db (from_call 2)))
               = [false_job]) by (vm_compute; reflexivity).
  assert (Hh : healthy_for 2 (world_of false_db (from_call 2))).
  { intros k Hk. destruct k as [|[|k]]; [reflexivity | reflexivity | lia]. }
  split; [exact Hp|]. split; [exact Hh|].
  apply (start_ends_on_store_failure "worker1" (mkTick sh false)
           [mkTick sh false] (world_of false_db (from_call 2)) false_job []
           Hp Hh); reflexivity.
Defined.

End Resolution.

(** ** The retry budget *)

Section Budget.

Implicit Types (db : Table) (r : Row) (job : Job) (w : World).

Lemma budget_ok_insert db id r :
  budget_ok db -> within_budget r -> budget_ok (<[id := r]> db).
Proof.
  intros Hdb Hr id' r'. rewrite lookup_insert.
  case_decide; [intros [= <-]; exact Hr | apply Hdb].
Qed.

Lemma budget_ok_update_job db job :
  budget_ok db ->
  budget (job_state job) (job_attempts job) (job_max_retries job) ->
  budget_ok (update_job db job).
Proof.
  intros Hdb Hj. unfold update_job.
  destruct (db !! job_id job); [|done]. by apply budget_ok_insert.
Qed.

Lemma budget_ok_unlock_job db id now :
  budget_ok db -> budget_ok (unlock_job db id now).
Proof.
  intros Hdb. unfold unlock_job. destruct (db !! id) as [r|] eqn:Hr; [|done].
  apply budget_ok_insert; [done|]. exact (Hdb _ _ Hr).
Qed.

Lemma budget_ok_lock_job_update db id wid now_lock now_upd :
  budget_ok db ->
  budget_ok (lock_job_update db id wid now_lock now_upd).2.
Proof.
  intros Hdb. unfold lock_job_update.
  destruct (db !! id) as [r|] eqn:Hr; [|done].
  apply budget_ok_insert; [done|].
  destruct (Hdb _ _ Hr) as (H1 & H2 & _ & _).
  repeat split; cbn; try done; lia.
Qed.

(** The job that a tick writes back is within budget when the job it
    claimed was pending and within budget. *)
Lemma budget_resolve success job :
  job_state job = PENDING ->
  budget (job_state job) (job_attempts job) (job_max_retries job) ->
  budget (job_state (resolve success job)) (job_attempts (resolve success job))
         (job_max_retries (resolve success job)).
Proof.
  intros Hs (H1 & H2 & H3 & _). specialize (H3 Hs).
  unfold resolve. destruct success.
  - repeat split; cbn; try done; lia.
  - cbn [set_attempts job_attempts job_max_retries].
    case_bool_decide; repeat split; cbn; try done; lia.
Qed.

Lemma budget_failed a m s :
  budget s a m -> budget FAILED a m.
Proof. intros (H1 & H2 & _ & _). repeat split; try done; lia. Qed.

(** A tick keeps every record within budget, whichever of its store calls
    fail. *)
Lemma _process_next_job_budget wid run w :
  budget_ok (store w) -> budget_ok (store (_process_next_job wid run w).2).
Proof.
  intros Hdb.
  destruct (get_pending_jobs (store w)) as [|job rest] eqn:Hp.
  { tick_unfold. tick_simpl. destruct (fails w (calls w)); tick_simpl; [done|].
    rewrite Hp. done. }
  destruct (get_pending_jobs_head _ _ _ Hp) as (r & Hr & Hs & Hl & Hj).
  pose proof (lock_job_select_unlocked _ _ _ Hr Hl) as Hsel.
  assert (Hjob : budget (job_state job) (job_attempts job) (job_max_retries job))
    by (rewrite Hj; exact (Hdb _ _ Hr)).
  assert (Hjs : job_state job = PENDING) by (rewrite Hj; exact Hs).
  pose proof (budget_resolve (_execute_job run job) job Hjs Hjob) as Hres.
  pose proof (fun t1 t2 =>
                budget_ok_lock_job_update _ (job_id job) wid t1 t2 Hdb) as Hlock.
  assert (Hlk : (lock_job_update (store w) (job_id job) wid
                   (clock w (reads w)) (clock w (S (reads w)))).1 = true)
    by (unfold lock_job_update; by rewrite Hr).
  tick_unfold. tick_simpl.
  destruct (fails w (calls w)); tick_simpl; [done|]. rewrite Hp. tick_simpl.
  destruct (fails w (S (calls w))); tick_simpl; [done|].
  rewrite Hsel. tick_simpl. rewrite Hlk. tick_simpl.
  destruct (fails w (S (S (calls w)))); tick_simpl.
  - destruct (fails w (S (S (S (calls w))))); tick_simpl; [apply Hlock|].
    destruct (fails w (S (S (S (S (calls w)))))); tick_simpl.
    + apply budget_ok_update_job; [apply Hlock|].
      exact (budget_failed _ _ _ Hres).
    + apply budget_ok_unlock_job. apply budget_ok_update_job; [apply Hlock|].
      exact (budget_failed _ _ _ Hres).
  - apply budget_ok_update_job; [apply Hlock|]. exact Hres.
Qed.

Lemma reachable_budget_ok db : reachable db -> budget_ok db.
Proof.
  induction 1 as [ | cfg db cmd jid retries uuid12 now_c now_u job db' _ IH He Hm
                 | db wid run clock reads fails calls _ IH
                 | db id now job db' _ IH He ].
  - intros id r. by rewrite lookup_empty.
  - apply enqueue_inr in He as (-> & _ & _ & ->).
    cbn [job_max_retries] in Hm.
    apply budget_ok_insert; [done|].
    repeat split; cbn; try done; lia.
  - by apply _process_next_job_budget.
  - revert He. unfold QueueManager.retry_dlq_job, get_job.
    destruct (db !! id) as [r|] eqn:Hr; [|done]. cbn.
    case_bool_decide; [done|]. intros [= <- <-].
    destruct (IH _ _ Hr) as (H1 & H2 & _ & _).
    apply budget_ok_update_job; [done|].
    repeat split; cbn; try done; lia.
Qed.

(** C7: every record of a reachable table has [attempts <= max_retries];
    a dead record has used exactly its budget and a pending one has budget
    left, so no record goes on to a later attempt count; and when a claimed
    job fails, it becomes [DEAD] exactly when the incremented [attempts]
    equals [max_retries]. *)
Theorem retry_budget_invariant db :
  reachable db ->
  (forall id r, db !! id = Some r ->
     attempts r <= max_retries r /\
     (state r = DEAD -> attempts r = max_retries r) /\
     (state r = PENDING -> attempts r < max_retries r)) /\
  (forall wid run w job rest,
     store w = db ->
     healthy_for 3 w ->
     get_pending_jobs db = job :: rest ->
     _execute_job run job = false ->
     exists r',
       store (_process_next_job wid run w).2 !! job_id job = Some r' /\
       attempts r' = job_attempts job + 1 /\
       attempts r' <= max_retries r' /\
       (state r' = DEAD <-> attempts r' = max_retries r')).
Proof.
  intros Hreach. pose proof (reachable_budget_ok db Hreach) as Hdb. split.
  - intros id r Hr. destruct (Hdb id r Hr) as (H1 & H2 & H3 & H4).
    repeat split; [lia | exact H4 | exact H3].
  - intros wid run w job rest <- Hh Hp Hx.
    destruct (failed_tick_row wid run w job rest Hp Hh Hx) as (_ & r0 & _ & Hr1).
    destruct (get_pending_jobs_head _ _ _ Hp) as (r & Hr & Hs & Hl & Hj).
    destruct (Hdb _ _ Hr) as (H1 & H2 & H3 & _). specialize (H3 Hs).
    assert (Ha : job_attempts job = attempts r) by (rewrite Hj; reflexivity).
    assert (Hm : job_max_retries job = max_retries r) by (rewrite Hj; reflexivity).
    eexists. split; [exact Hr1|]. cbn [attempts max_retries state].
    split; [reflexivity|]. split; [lia|].
    case_bool_decide; split; intros; try done; lia.
Qed.

Lemma retry_budget_invariant_witness :
  reachable false_db /\
  forall id r, false_db !! id = Some r -> attempts r <= max_retries r.
Proof.
  assert (Hreach : reachable false_db).
  { apply (reach_enqueue Config.DEFAULTS ∅ "false" (Some "job1") (Some 2)
             "0f8fad5b-d9c" 0 0 false_job false_db reach_empty).
    - reflexivity.
    - cbn. lia. }
  split; [exact Hreach|].
  intros id r Hr.
  exact (proj1 (proj1 (retry_budget_invariant false_db Hreach) id r Hr)).
Defined.

End Budget.

(** ** Scenarios *)

Section Scenarios.

(** [enqueue("false", job_id="job1", max_retries=2)] on the empty table. *)
Example scenario_enqueue :
  QueueManager.enqueue Config.DEFAULTS ∅ "false" (Some "job1") (Some 2)
    "0f8fad5b-d9c" 0 0 = inr (false_job, false_db).
Proof. reflexivity. Qed.

(** First failed execution: pending with one attempt; second failed
    execution: dead with two attempts; [retry_dlq_job]: pending with no
    attempts. *)
Example scenario_retry_then_dlq :
  after_ticks [mkTick sh false] (world_of false_db never) !! "job1"
    = Some (mkRow "false" PENDING 1 2 0 102 None None) /\
  after_ticks [mkTick sh false; mkTick sh false] (world_of false_db never)
    !! "job1"
    = Some (mkRow "false" DEAD 2 2 0 105 None None) /\
  (exists job db',
     QueueManager.retry_dlq_job
       (after_ticks [mkTick sh false; mkTick sh false]
          (world_of false_db never)) "job1" 200 = inr (job, db') /\
     db' !! "job1" = Some (mkRow "false" PENDING 0 2 0 200 None None)).
Proof.
  split; [vm_compute; reflexivity|]. split; [vm_compute; reflexivity|].
  eexists _, _. split; vm_compute; reflexivity.
Qed.

(** [enqueue("echo ok")] with the default retries, one successful
    execution: completed with no attempts. *)
Example scenario_success :
  exists job db',
    QueueManager.enqueue Config.DEFAULTS ∅ "echo ok" None None
      "0f8fad5b-d9c" 0 0 = inr (job, db') /\
    after_ticks [mkTick sh false] (world_of db' never) !! "0f8fad5b-d9c"
      = Some (mkRow "echo ok" COMPLETED 0 3 0 102 None None).
Proof. eexists _, _. split; [reflexivity | vm_compute; reflexivity]. Qed.

(** A single failed write of the resolution is absorbed by the handler:
    the job is failed, unlocked, and the loop goes on. *)
Example scenario_one_failed_write :
  (start "worker1" [mkTick sh false; mkTick sh false]
     (world_of false_db (at_call 2))).1 = inr StillRunning /\
  after_ticks [mkTick sh false; mkTick sh false]
    (world_of false_db (at_call 2)) !! "job1"
    = Some (mkRow "false" FAILED 1 2 0 104 None None).
Proof. split; vm_compute; reflexivity. Qed.

(** [test_lock_job]: the second [lock_job] in a row fails and the job is
    in state [PROCESSING]. *)
Example scenario_test_lock_job :
  (lock_job test1_db "test1" "worker1" 1 1).1 = true /\
  (lock_job (lock_job test1_db "test1" "worker1" 1 1).2 "test1" "worker2" 2 2).1
    = false /\
  job_state <$> get_job (lock_job test1_db "test1" "worker1" 1 1).2 "test1"
    = Some PROCESSING.
Proof. repeat split; vm_compute; reflexivity. Qed.

End Scenarios.

(** * Further properties of the store *)

Section StoreOperations.

Implicit Types (db : Table) (r : Row) (job : Job) (s : JobState).

#[local] Instance created_le_total : Total created_le.
Proof. intros a b. unfold created_le. lia. Qed.

#[local] Instance created_le_trans : Transitive created_le.
Proof. intros a b c. unfold created_le. lia. Qed.

#[local] Instance created_ge_total : Total created_ge.
Proof. intros a b. unfold created_ge. lia. Qed.

#[local] Instance created_ge_trans : Transitive created_ge.
Proof. intros a b c. unfold created_ge. lia. Qed.

Lemma _row_to_job_id kr : job_id (_row_to_job kr) = kr.1.
Proof. reflexivity. Qed.

Lemma _row_to_job_eta job r :
  job = _row_to_job (job_id job, r) <->
  job_command job = command r /\ job_state job = state r /\
  job_attempts job = attempts r /\ job_max_retries job = max_retries r /\
  job_created_at job = created_at r /\ job_updated_at job = updated_at r.
Proof.
  destruct job as [i c s a m ca ua]. unfold _row_to_job. cbn. split.
  - intros [= -> -> -> -> -> ->]. done.
  - intros (-> & -> & -> & -> & -> & ->). done.
Qed.

Lemma get_job_Some db id job :
  get_job db id = Some job <->
  exists r, db !! id = Some r /\ job = _row_to_job (id, r).
Proof.
  unfold get_job. destruct (db !! id) as [r|]; cbn.
  - split; [intros [= <-]; eauto | intros (r' & [= <-] & ->); done].
  - split; [done | intros (r' & ? & _); done].
Qed.

Lemma get_job_id db id job : get_job db id = Some job -> job_id job = id.
Proof. rewrite get_job_Some. intros (r & _ & ->). done. Qed.

(** Membership in a sorted selection of rows. *)
Lemma elem_of_selection (R : relation (string * Row)) `{!RelDecision R}
    (P : string * Row -> Prop) `{!forall kr, Decision (P kr)} db job :
  job ∈ _row_to_job <$> merge_sort R (filter P (map_to_list db)) <->
  exists r, db !! job_id job = Some r /\ P (job_id job, r) /\
            job = _row_to_job (job_id job, r).
Proof.
  rewrite list_elem_of_fmap. split.
  - intros ([k r] & -> & Hin). rewrite merge_sort_Permutation in Hin.
    apply list_elem_of_filter in Hin as [HP Hin].
    apply elem_of_map_to_list in Hin. cbn. eauto.
  - intros (r & Hr & HP & Hj). exists (job_id job, r). split; [done|].
    rewrite merge_sort_Permutation. apply list_elem_of_filter.
    split; [done|]. by apply elem_of_map_to_list.
Qed.

Lemma selection_sorted_asc (P : string * Row -> Prop)
    `{!forall kr, Decision (P kr)} db :
  StronglySorted (fun a b => job_created_at a <= job_created_at b)
    (_row_to_job <$> merge_sort created_le (filter P (map_to_list db))).
Proof.
  apply (StronglySorted_fmap _ created_le); [done|].
  apply StronglySorted_merge_sort; apply _.
Qed.

(** X1: [add_job] and [get_job] round trip.  When [add_job] succeeds, the
    id was not in the table, [get_job] returns the job as it was added, the
    new row is unlocked, every other job reads as before and the table has
    one more row.  It succeeds on an id that is not in the table when
    [attempts] and [max_retries] fit an [INTEGER] column; when one of them
    does not fit it raises [OverflowError], whether or not the id is in the
    table, and nothing is stored; and on an id that is in the table, with
    integers that fit, it raises the integrity error. *)
Theorem add_job_get_job db job :
  (forall db', add_job db job = inr db' ->
     db !! job_id job = None /\
     get_job db' (job_id job) = Some job /\
     (locked_at <$> db' !! job_id job) = Some None /\
     (locked_by <$> db' !! job_id job) = Some None /\
     (forall id, id <> job_id job -> get_job db' id = get_job db id) /\
     size db' = S (size db)) /\
  (sqlite_integer (job_attempts job) = true ->
   sqlite_integer (job_max_retries job) = true ->
   db !! job_id job = None ->
   exists db', add_job db job = inr db') /\
  (sqlite_integer (job_attempts job) = false \/
   sqlite_integer (job_max_retries job) = false ->
   add_job db job = inl OverflowError) /\
  (sqlite_integer (job_attempts job) = true ->
   sqlite_integer (job_max_retries job) = true ->
   is_Some (db !! job_id job) ->
   add_job db job = inl IntegrityError).
Proof.
  split; [|split; [|split]].
  - intros db' Ha. apply add_job_inr in Ha as (_ & _ & Hnone & ->).
    split; [done|]. unfold get_job. rewrite lookup_insert_eq. cbn.
    split; [by destruct job|]. split; [done|]. split; [done|]. split.
    + intros id Hne. by rewrite lookup_insert_ne.
    + by apply map_size_insert_None.
  - intros Ha Hm Hnone. eexists. apply add_job_inr. done.
  - unfold add_job. intros [-> | ->]; [done|].
    by destruct (sqlite_integer (job_attempts job)).
  - unfold add_job. intros -> -> [r ->]. done.
Qed.

Lemma add_job_get_job_witness :
  sqlite_integer (job_attempts false_job) = true /\
  sqlite_integer (job_max_retries false_job) = true /\
  (∅ : Table) !! job_id false_job = None /\
  exists db', add_job ∅ false_job = inr db' /\
              get_job db' "job1" = Some false_job.
Proof.
  assert (Hn : (∅ : Table) !! job_id false_job = None) by reflexivity.
  assert (Ha : sqlite_integer (job_attempts false_job) = true) by reflexivity.
  assert (Hm : sqlite_integer (job_max_retries false_job) = true)
    by reflexivity.
  split; [exact Ha|]. split; [exact Hm|]. split; [exact Hn|].
  destruct (add_job_get_job ∅ false_job) as (Hround & Hex & _).
  destruct (Hex Ha Hm Hn) as (db' & Hadd).
  exists db'. split; [exact Hadd|].
  exact (proj1 (proj2 (Hround db' Hadd))).
Defined.



(** X3: [delete_job] removes the job and nothing else: [get_job] finds it
    no more, every other row is as before, deleting an unknown id changes
    nothing, the queue manager's total goes down by one when the job
    existed, and the id can be added again (by a job whose integers fit
    an [INTEGER] column). *)
Theorem delete_job_effect db id :
  get_job (delete_job db id) id = None /\
  (forall id', id' <> id -> delete_job db id !! id' = db !! id') /\
  (db !! id = None -> delete_job db id = db) /\
  (is_Some (db !! id) ->
     QueueManager.total (QueueManager.get_stats (delete_job db id)) + 1
       = QueueManager.total (QueueManager.get_stats db)) /\
  (forall job, job_id job = id ->
     sqlite_integer (job_attempts job) = true ->
     sqlite_integer (job_max_retries job) = true ->
     exists db', add_job (delete_job db id) job = inr db').
Proof.
  unfold delete_job. split; [|split; [|split; [|split]]].
  - unfold get_job. by rewrite lookup_delete_eq.
  - intros id' Hne. by apply lookup_delete_ne.
  - apply delete_id.
  - intros [r Hr]. unfold QueueManager.get_stats. cbn [QueueManager.total].
    rewrite !sum_values_get_stats, !count_state_partition.
    rewrite <- !length_map_to_list.
    rewrite <- (map_to_list_delete db id r Hr). cbn [length]. lia.
  - intros job <- Ha Hm. eexists. apply add_job_inr.
    rewrite lookup_delete_eq. done.
Qed.

Lemma delete_job_effect_witness :
  is_Some (false_db !! "job1") /\
  QueueManager.total (QueueManager.get_stats (delete_job false_db "job1")) + 1
    = QueueManager.total (QueueManager.get_stats false_db).
Proof.
  assert (H : is_Some (false_db !! "job1")) by (eexists; reflexivity).
  split; [exact H|].
  exact (proj1 (proj2 (proj2 (proj2 (delete_job_effect false_db "job1")))) H).
Defined.

(** X4: [get_all_jobs] lists every job of the table exactly once, as
    [get_job] reads it, the most recently created first. *)
Theorem get_all_jobs_spec db :
  (forall job, job ∈ get_all_jobs db <-> get_job db (job_id job) = Some job) /\
  length (get_all_jobs db) = size db /\
  NoDup (job_id <$> get_all_jobs db) /\
  StronglySorted (fun a b => job_created_at b <= job_created_at a)
    (get_all_jobs db).
Proof.
  unfold get_all_jobs. split; [|split; [|split]].
  - intros job. rewrite list_elem_of_fmap, get_job_Some. split.
    + intros ([k r] & -> & Hin). rewrite merge_sort_Permutation in Hin.
      apply elem_of_map_to_list in Hin. cbn. eauto.
    + intros (r & Hr & Hj). exists (job_id job, r). split; [done|].
      rewrite merge_sort_Permutation. by apply elem_of_map_to_list.
  - rewrite length_fmap, merge_sort_Permutation. apply length_map_to_list.
  - rewrite <- list_fmap_compose.
    rewrite (list_fmap_ext (job_id ∘ _row_to_job) fst
               (merge_sort created_ge (map_to_list db))) by done.
    rewrite merge_sort_Permutation. apply NoDup_fst_map_to_list.
  - apply (StronglySorted_fmap _ created_ge); [done|].
    apply StronglySorted_merge_sort; apply _.
Qed.

(** X5: [get_jobs_by_state] returns exactly the jobs of the table that are
    in the given state, the oldest first, and as many of them as
    [get_stats] counts for that state. *)
Theorem get_jobs_by_state_spec db s :
  (forall job, job ∈ get_jobs_by_state db s <->
     get_job db (job_id job) = Some job /\ job_state job = s) /\
  StronglySorted (fun a b => job_created_at a <= job_created_at b)
    (get_jobs_by_state db s) /\
  Database.get_stats db !! value s
    = Some (Z.of_nat (length (get_jobs_by_state db s))).
Proof.
  unfold get_jobs_by_state. split; [|split].
  - intros job. rewrite elem_of_selection, get_job_Some. split.
    + intros (r & Hr & Hs & Hj). split; [eauto|]. rewrite Hj. exact Hs.
    + intros ((r & Hr & Hj) & Hs). exists r. split; [done|].
      split; [|done]. rewrite Hj in Hs. exact Hs.
  - apply selection_sorted_asc.
  - rewrite get_stats_lookup. unfold count_state.
    by rewrite length_fmap, merge_sort_Permutation.
Qed.

(** X6: [get_pending_jobs] returns exactly the jobs that are pending and
    unlocked, the oldest first: no unlocked pending job of the table was
    created before the first job of the list, the one a worker takes. *)
Theorem get_pending_jobs_spec db :
  (forall job, job ∈ get_pending_jobs db <->
     get_job db (job_id job) = Some job /\ job_state job = PENDING /\
     (locked_at <$> db !! job_id job) = Some None) /\
  StronglySorted (fun a b => job_created_at a <= job_created_at b)
    (get_pending_jobs db) /\
  (forall job rest, get_pending_jobs db = job :: rest ->
     forall id r, db !! id = Some r -> state r = PENDING ->
                  locked_at r = None ->
                  job_created_at job <= created_at r).
Proof.
  assert (Hmem : forall job, job ∈ get_pending_jobs db <->
     get_job db (job_id job) = Some job /\ job_state job = PENDING /\
     (locked_at <$> db !! job_id job) = Some None).
  { intros job. unfold get_pending_jobs.
    rewrite elem_of_selection, get_job_Some. split.
    - intros (r & Hr & [Hs Hl] & Hj). split; [eauto|].
      split; [rewrite Hj; exact Hs|]. rewrite Hr. cbn in *. by rewrite Hl.
    - intros ((r & Hr & Hj) & Hs & Hl). exists r. split; [done|].
      rewrite Hr in Hl. injection Hl as Hl. rewrite Hj in Hs.
      split; [|done]. split; [exact Hs | exact Hl]. }
  assert (Hsorted : StronglySorted
            (fun a b => job_created_at a <= job_created_at b)
            (get_pending_jobs db)) by apply selection_sorted_asc.
  split; [exact Hmem|]. split; [exact Hsorted|].
  intros job rest Hp id r Hr Hs Hl.
  assert (Hin : _row_to_job (id, r) ∈ get_pending_jobs db).
  { apply Hmem. cbn [job_id _row_to_job fst]. unfold get_job. rewrite Hr.
    cbn. by rewrite Hl. }
  rewrite Hp in Hin, Hsorted.
  apply elem_of_cons in Hin as [Heq|Hin].
  - rewrite <- Heq. cbn. lia.
  - apply StronglySorted_inv in Hsorted as [_ Hall].
    rewrite Forall_forall in Hall. exact (Hall _ Hin).
Qed.

Lemma get_pending_jobs_spec_witness :
  get_pending_jobs false_db = [false_job] /\
  forall id r, false_db !! id = Some r -> state r = PENDING ->
               locked_at r = None -> job_created_at false_job <= created_at r.
Proof.
  assert (Hp : get_pending_jobs false_db = [false_job])
    by (vm_compute; reflexivity).
  split; [exact Hp|].
  exact (proj2 (proj2 (get_pending_jobs_spec false_db)) false_job [] Hp).
Defined.

(** X7: a second [lock_job] on a claimed job fails; [unlock_job] releases
    the lock but leaves the state [PROCESSING], so the released job can be
    locked again by a direct [lock_job] but is not among the jobs that
    [get_pending_jobs] offers to the workers. *)
Theorem unlock_job_after_lock_job db id r w1 w2 t1 t2 t3 t4 t5 :
  db !! id = Some r -> locked_at r = None ->
  lock_job (lock_job db id w1 t1 t2).2 id w2 t4 t5
    = (false, (lock_job db id w1 t1 t2).2) /\
  unlock_job (lock_job db id w1 t1 t2).2 id t3 !! id
    = Some (mkRow (command r) PROCESSING (attempts r) (max_retries r)
                  (created_at r) t3 None None) /\
  (lock_job (unlock_job (lock_job db id w1 t1 t2).2 id t3) id w2 t4 t5).1
    = true /\
  (forall job,
     job ∈ get_pending_jobs (unlock_job (lock_job db id w1 t1 t2).2 id t3) ->
     job_id job <> id).
Proof.
  intros Hr Hl. rewrite (lock_job_unlocked _ _ _ _ _ _ Hr Hl). cbn [snd].
  set (rl := mkRow _ PROCESSING _ _ _ _ _ _).
  assert (Hrl : <[id := rl]> db !! id = Some rl) by apply lookup_insert_eq.
  pose proof (unlock_job_lookup _ _ t3 _ Hrl) as Hu. cbn in Hu.
  split; [|split; [|split]].
  - by apply lock_job_locked with rl.
  - exact Hu.
  - by rewrite (lock_job_unlocked _ _ _ _ _ _ Hu).
  - intros job Hin <-.
    apply get_pending_jobs_elem in Hin as (r' & Hr' & Hs & _).
    rewrite Hu in Hr'. injection Hr' as <-. discriminate Hs.
Qed.

Lemma unlock_job_after_lock_job_witness :
  test1_db !! "test1" = Some (mkRow "echo hello" PENDING 0 3 0 0 None None) /\
  (lock_job (unlock_job (lock_job test1_db "test1" "worker1" 1 1).2 "test1" 2)
     "test1" "worker2" 3 3).1 = true.
Proof.
  assert (Hr : test1_db !! "test1"
               = Some (mkRow "echo hello" PENDING 0 3 0 0 None None))
    by reflexivity.
  split; [exact Hr|].
  exact (proj1 (proj2 (proj2
           (unlock_job_after_lock_job test1_db "test1" _ "worker1" "worker2"
              1 1 2 3 3 Hr eq_refl)))).
Defined.

(** X8: [lock_job] touches no other job and neither adds nor removes a
    row; on an id that is not in the table it returns [False] and changes
    nothing. *)
Theorem lock_job_frame db id w now_lock now_upd :
  dom (lock_job db id w now_lock now_upd).2 = dom db /\
  (forall id', id' <> id ->
     (lock_job db id w now_lock now_upd).2 !! id' = db !! id') /\
  (db !! id = None -> lock_job db id w now_lock now_upd = (false, db)).
Proof.
  unfold lock_job, lock_job_select, lock_job_update.
  destruct (db !! id) as [r|] eqn:Hr; [|done].
  destruct (bool_decide (locked_at r <> None)); cbn [snd].
  - done.
  - split; [apply dom_insert_lookup_L; eauto|].
    split; [|done]. intros id' Hne. by rewrite lookup_insert_ne.
Qed.

Lemma lock_job_frame_witness :
  test1_db !! "job9" = None /\
  lock_job test1_db "job9" "worker1" 1 1 = (false, test1_db).
Proof.
  assert (Hn : test1_db !! "job9" = None) by reflexivity.
  split; [exact Hn|].
  exact (proj2 (proj2 (lock_job_frame test1_db "job9" "worker1" 1 1)) Hn).
Defined.

End StoreOperations.

Lemma get_all_jobs_spec_witness :
  get_job false_db (job_id false_job) = Some false_job /\
  false_job ∈ get_all_jobs false_db.
Proof.
  assert (Hg : get_job false_db (job_id false_job) = Some false_job)
    by reflexivity.
  split; [exact Hg|].
  exact (proj2 (proj1 (get_all_jobs_spec false_db) false_job) Hg).
Defined.

Lemma get_jobs_by_state_spec_witness :
  (get_job false_db (job_id false_job) = Some false_job /\
   job_state false_job = PENDING) /\
  false_job ∈ get_jobs_by_state false_db PENDING.
Proof.
  assert (Hg : get_job false_db (job_id false_job) = Some false_job /\
               job_state false_job = PENDING) by (split; reflexivity).
  split; [exact Hg|].
  exact (proj2 (proj1 (get_jobs_by_state_spec false_db PENDING) false_job) Hg).
Defined.

(** * How the statistics follow the operations *)

Section StatsTransitions.

Implicit Types (db : Table) (r : Row) (job : Job) (s : JobState).

(** [1] for the state of the row, [0] for the others. *)
Lemma count_state_insert_None db id r s :
  db !! id = None ->
  count_state (<[id := r]> db) s =
    count_state db s + (if decide (state r = s) then 1 else 0).
Proof.
  intros Hn. unfold count_state. rewrite (map_to_list_insert db id r Hn).
  rewrite filter_cons. cbn [snd]. case_decide; cbn [length]; lia.
Qed.

Lemma count_state_insert_Some db id r0 r s :
  db !! id = Some r0 ->
  count_state (<[id := r]> db) s =
    count_state db s - (if decide (state r0 = s) then 1 else 0)
                     + (if decide (state r = s) then 1 else 0).
Proof.
  intros Hr0. rewrite <- (insert_delete_eq db id r).
  rewrite count_state_insert_None by apply lookup_delete_eq.
  rewrite <- (insert_delete_id db id r0 Hr0) at 2.
  rewrite (count_state_insert_None (delete id db) id r0 s)
    by apply lookup_delete_eq.
  lia.
Qed.

Lemma total_is_size db :
  QueueManager.total (QueueManager.get_stats db) = Z.of_nat (size db).
Proof.
  unfold QueueManager.get_stats. cbn [QueueManager.total].
  rewrite sum_values_get_stats. apply count_state_partition.
Qed.

Lemma lock_job_dom db id w now_lock now_upd :
  dom (lock_job db id w now_lock now_upd).2 = dom db.
Proof.
  unfold lock_job, lock_job_select, lock_job_update.
  destruct (db !! id) as [r|] eqn:Hr; [|done].
  destruct (bool_decide (locked_at r <> None)); cbn [snd]; [done|].
  apply dom_insert_lookup_L. eauto.
Qed.

(** X9: adding a job raises the count of the job's state by one, leaves
    the counts of the other states alone, and raises the total by one. *)
Theorem add_job_get_stats db job db' :
  add_job db job = inr db' ->
  Database.get_stats db' !! value (job_state job)
    = Some (count_state db (job_state job) + 1) /\
  (forall s, s <> job_state job ->
     Database.get_stats db' !! value s = Database.get_stats db !! value s) /\
  QueueManager.total (QueueManager.get_stats db')
    = QueueManager.total (QueueManager.get_stats db) + 1.
Proof.
  intros Ha. apply add_job_inr in Ha as (_ & _ & Hn & ->). split; [|split].
  - rewrite get_stats_lookup, (count_state_insert_None _ _ _ _ Hn).
    cbn [state]. by rewrite decide_True.
  - intros s Hne.
    rewrite !get_stats_lookup, (count_state_insert_None _ _ _ _ Hn).
    cbn [state]. rewrite decide_False by done. f_equal. lia.
  - rewrite !total_is_size, map_size_insert_None by done. lia.
Qed.

Lemma add_job_get_stats_witness :
  add_job ∅ false_job = inr false_db /\
  Database.get_stats false_db !! value PENDING = Some (count_state ∅ PENDING + 1).
Proof.
  assert (Ha : add_job ∅ false_job = inr false_db) by reflexivity.
  split; [exact Ha|].
  exact (proj1 (add_job_get_stats ∅ false_job false_db Ha)).
Defined.

(** X10: a successful claim moves one job from the count of its former
    state to the count of [processing]; a failed claim changes no count;
    the total is the same in both cases. *)
Theorem lock_job_get_stats db id r w now_lock now_upd :
  db !! id = Some r ->
  (locked_at r = None -> state r <> PROCESSING ->
     Database.get_stats (lock_job db id w now_lock now_upd).2 !! value PROCESSING
       = Some (count_state db PROCESSING + 1) /\
     Database.get_stats (lock_job db id w now_lock now_upd).2 !! value (state r)
       = Some (count_state db (state r) - 1)) /\
  (locked_at r <> None ->
     Database.get_stats (lock_job db id w now_lock now_upd).2
       = Database.get_stats db) /\
  QueueManager.total
    (QueueManager.get_stats (lock_job db id w now_lock now_upd).2)
    = QueueManager.total (QueueManager.get_stats db).
Proof.
  intros Hr. split; [|split].
  - intros Hl Hs. rewrite (lock_job_unlocked _ _ _ _ _ _ Hr Hl). cbn [snd].
    rewrite !get_stats_lookup, !(count_state_insert_Some _ _ _ _ _ Hr).
    cbn [state]. repeat case_decide; try congruence.
    split; f_equal; lia.
  - intros Hl. by rewrite (lock_job_locked _ _ _ _ _ _ Hr Hl).
  - rewrite !total_is_size.
    by rewrite <- !size_dom, lock_job_dom.
Qed.

End StatsTransitions.

(** * Further properties of the worker *)

Section TickOutcome.

Implicit Types (db : Table) (r : Row) (job : Job) (w : World).

Lemma update_job_insert db id rl job :
  job_id job = id ->
  update_job (<[id := rl]> db) job =
    <[id := mkRow (job_command job) (job_state job) (job_attempts job)
                  (job_max_retries job) (created_at rl) (job_updated_at job)
                  None None]> db.
Proof.
  intros <-. unfold update_job. rewrite lookup_insert_eq.
  apply insert_insert_eq.
Qed.

Lemma unlock_job_insert db id ru now :
  unlock_job (<[id := ru]> db) id now =
    <[id := mkRow (command ru) (state ru) (attempts ru) (max_retries ru)
                  (created_at ru) now None None]> db.
Proof.
  unfold unlock_job. rewrite lookup_insert_eq. apply insert_insert_eq.
Qed.

Lemma resolve_outcome wid success job r now :
  job = _row_to_job (job_id job, r) ->
  tick_outcome wid r
    (mkRow (job_command (resolve success job)) (job_state (resolve success job))
           (job_attempts (resolve success job))
           (job_max_retries (resolve success job)) (created_at r) now None None).
Proof.
  intros Hj. rewrite job_command_resolve, job_max_retries_resolve.
  apply _row_to_job_eta in Hj as (Hc & _ & Ha & Hm & _ & _).
  unfold tick_outcome. cbn [command max_retries created_at state attempts
                            locked_at locked_by].
  split; [done|]. split; [done|]. split; [done|]. right.
  split; [done|]. split; [done|].
  unfold resolve. destruct success.
  - left. cbn. done.
  - right. right. cbn [set_attempts job_attempts job_max_retries].
    rewrite Ha, Hm. by case_bool_decide.
Qed.

Lemma failed_outcome wid success job r now :
  job = _row_to_job (job_id job, r) ->
  tick_outcome wid r
    (mkRow (job_command (resolve success job)) FAILED
           (job_attempts (resolve success job))
           (job_max_retries (resolve success job)) (created_at r) now None None).
Proof.
  intros Hj. rewrite job_command_resolve, job_max_retries_resolve.
  apply _row_to_job_eta in Hj as (Hc & _ & Ha & Hm & _ & _).
  unfold tick_outcome. cbn [command max_retries created_at state attempts
                            locked_at locked_by].
  split; [done|]. split; [done|]. split; [done|]. right.
  split; [done|]. split; [done|]. right. left. split; [done|].
  unfold resolve. destruct success; [cbn; lia|].
  cbn [set_attempts job_attempts job_max_retries].
  case_bool_decide; cbn; lia.
Qed.

(** Every tick, in every world: either the table is as it was, or exactly
    the row of the first job of [get_pending_jobs] was replaced. *)
Lemma _process_next_job_result wid run w :
  store (_process_next_job wid run w).2 = store w \/
  exists job rest r r',
    get_pending_jobs (store w) = job :: rest /\
    store w !! job_id job = Some r /\
    state r = PENDING /\ locked_at r = None /\
    store (_process_next_job wid run w).2 = <[job_id job := r']> (store w) /\
    tick_outcome wid r r'.
Proof.
  destruct (get_pending_jobs (store w)) as [|job rest] eqn:Hp.
  { left. tick_unfold. tick_simpl.
    destruct (fails w (calls w)); tick_simpl; [done|]. by rewrite Hp. }
  destruct (get_pending_jobs_head _ _ _ Hp) as (r & Hr & Hs & Hl & Hj).
  pose proof (lock_job_select_unlocked _ _ _ Hr Hl) as Hsel.
  pose proof (fun a b c => lock_job_update_some _ _ a b c _ Hr) as Hupd.
  tick_unfold. tick_simpl.
  destruct (fails w (calls w)); tick_simpl; [by left|]. rewrite Hp. tick_simpl.
  destruct (fails w (S (calls w))); tick_simpl; [by left|].
  rewrite Hsel. tick_simpl. rewrite !Hupd. tick_simpl.
  right. exists job, rest, r.
  destruct (fails w (S (S (calls w)))); tick_simpl.
  - destruct (fails w (S (S (S (calls w))))); tick_simpl.
    + eexists. repeat (split; [done|]).
      unfold tick_outcome. cbn. repeat (split; [done|]). left. done.
    + destruct (fails w (S (S (S (S (calls w)))))); tick_simpl.
      * rewrite update_job_insert by (cbn; apply job_id_resolve).
        eexists. repeat (split; [done|]). cbn.
        by apply failed_outcome.
      * rewrite job_id_resolve.
        rewrite update_job_insert by (cbn; apply job_id_resolve).
        rewrite unlock_job_insert.
        eexists. repeat (split; [done|]). cbn.
        by apply failed_outcome.
  - rewrite update_job_insert by (cbn; apply job_id_resolve).
    eexists. repeat (split; [done|]). cbn.
    by apply resolve_outcome.
Qed.

End TickOutcome.

Section WorkerBehaviour.

Implicit Types (db : Table) (r : Row) (job : Job) (w : World).

#[local] Instance created_le_total' : Total created_le.
Proof. intros a b. unfold created_le. lia. Qed.

#[local] Instance created_le_trans' : Transitive created_le.
Proof. intros a b c. unfold created_le. lia. Qed.

(** The first job of [get_pending_jobs] is an oldest one. *)
Lemma get_pending_jobs_oldest db job rest id r :
  get_pending_jobs db = job :: rest ->
  db !! id = Some r -> state r = PENDING -> locked_at r = None ->
  job_created_at job <= created_at r.
Proof.
  intros Hp Hr Hs Hl.
  assert (Hin : _row_to_job (id, r) ∈ get_pending_jobs db).
  { unfold get_pending_jobs. apply list_elem_of_fmap. exists (id, r).
    split; [done|]. rewrite merge_sort_Permutation.
    apply list_elem_of_filter. split; [done|]. by apply elem_of_map_to_list. }
  assert (Hsorted : StronglySorted created_le
            (merge_sort created_le
               (filter (fun kr : string * Row =>
                          state kr.2 = PENDING /\ locked_at kr.2 = None)
                       (map_to_list db))))
    by (apply StronglySorted_merge_sort; apply _).
  apply (StronglySorted_fmap _row_to_job created_le
           (fun a b => job_created_at a <= job_created_at b)) in Hsorted;
    [|done].
  fold (get_pending_jobs db) in Hsorted. rewrite Hp in Hin, Hsorted.
  apply elem_of_cons in Hin as [Heq|Hin].
  - rewrite <- Heq. cbn. lia.
  - apply StronglySorted_inv in Hsorted as [_ Hall].
    rewrite Forall_forall in Hall. exact (Hall _ Hin).
Qed.

(** X11: what one tick can do to the table, whatever the command does and
    whichever store calls fail.  It neither adds nor removes a job.  A row
    that differs after the tick was pending and unlocked before it, keeps
    its command, [max_retries] and [created_at], and is now either still
    claimed by this worker, or unlocked and completed, failed, or retried
    (one more attempt; dead if [attempts >= max_retries], else pending);
    no second row differs; and when no job is pending and unlocked nothing
    changes at all. *)
Theorem tick_changes_one_pending_job wid run w :
  dom (store (_process_next_job wid run w).2) = dom (store w) /\
  (forall id r r',
     store w !! id = Some r ->
     store (_process_next_job wid run w).2 !! id = Some r' ->
     r' <> r ->
     state r = PENDING /\ locked_at r = None /\ tick_outcome wid r r' /\
     forall id2 r2 r2',
       store w !! id2 = Some r2 ->
       store (_process_next_job wid run w).2 !! id2 = Some r2' ->
       r2' <> r2 -> id2 = id) /\
  (get_pending_jobs (store w) = [] ->
   store (_process_next_job wid run w).2 = store w).
Proof.
  destruct (_process_next_job_result wid run w)
    as [Heq|(job & rest & r0 & r0' & Hp & Hr0 & Hs & Hl & Heq & Hout)];
    rewrite Heq.
  - split; [done|]. split; [|done]. intros id r r' Hr Hr' Hne. congruence.
  - split; [apply dom_insert_lookup_L; eauto|]. split; [|by rewrite Hp].
    assert (Hid : forall id r r', store w !! id = Some r ->
                    <[job_id job := r0']> (store w) !! id = Some r' ->
                    r' <> r -> id = job_id job).
    { intros id r r' Hr Hr' Hne.
      destruct (decide (id = job_id job)) as [->|Hd]; [done|].
      rewrite lookup_insert_ne in Hr' by done. congruence. }
    intros id r r' Hr Hr' Hne.
    pose proof (Hid _ _ _ Hr Hr' Hne) as ->.
    rewrite lookup_insert_eq in Hr'. injection Hr' as <-.
    rewrite Hr0 in Hr. injection Hr as <-.
    repeat (split; [done|]).
    intros id2 r2 r2' Hr2 Hr2' Hne2. exact (Hid _ _ _ Hr2 Hr2' Hne2).
Qed.

Lemma tick_changes_one_pending_job_witness :
  get_pending_jobs (store (world_of test1_released never)) = [] /\
  store (_process_next_job "worker1" sh (world_of test1_released never)).2
    = test1_released.
Proof.
  assert (Hp : get_pending_jobs (store (world_of test1_released never)) = [])
    by (vm_compute; reflexivity).
  split; [exact Hp|].
  exact (proj2 (proj2 (tick_changes_one_pending_job "worker1" sh
                         (world_of test1_released never))) Hp).
Defined.

(** X12: the job that a tick changes is an oldest one: no job of the table
    that was pending and unlocked before the tick has an earlier
    [created_at]. *)
Theorem tick_claims_oldest wid run w id r r' :
  store w !! id = Some r ->
  store (_process_next_job wid run w).2 !! id = Some r' ->
  r' <> r ->
  forall id2 r2, store w !! id2 = Some r2 -> state r2 = PENDING ->
                 locked_at r2 = None -> created_at r <= created_at r2.
Proof.
  intros Hr Hr' Hne id2 r2 Hr2 Hs2 Hl2.
  destruct (_process_next_job_result wid run w)
    as [Heq|(job & rest & r0 & r0' & Hp & Hr0 & Hs & Hl & Heq & Hout)];
    rewrite Heq in Hr'; [congruence|].
  destruct (decide (id = job_id job)) as [->|Hd].
  - rewrite Hr0 in Hr. injection Hr as <-.
    pose proof (get_pending_jobs_oldest _ _ _ _ _ Hp Hr2 Hs2 Hl2) as Hle.
    destruct (get_pending_jobs_head _ _ _ Hp) as (r1 & Hr1 & _ & _ & Hj).
    rewrite Hr0 in Hr1. injection Hr1 as <-.
    apply _row_to_job_eta in Hj as (_ & _ & _ & _ & Hc & _). lia.
  - rewrite lookup_insert_ne in Hr' by done. congruence.
Qed.

(** X13: when the command exits with status zero and the store calls of
    the tick succeed, the claimed job is [COMPLETED], its attempts are as
    before and both lock columns are [NULL]. *)
Theorem successful_job_is_completed wid run w job rest :
  get_pending_jobs (store w) = job :: rest ->
  healthy_for 3 w ->
  run (job_command job) = Returned 0 ->
  (_process_next_job wid run w).1 = inr tt /\
  exists r,
    store w !! job_id job = Some r /\
    store (_process_next_job wid run w).2 !! job_id job =
      Some (mkRow (command r) COMPLETED (attempts r) (max_retries r)
                  (created_at r) (clock w (S (S (reads w)))) None None).
Proof.
  intros Hp Hh Hrun.
  rewrite (_process_next_job_healthy _ _ _ _ _ Hp Hh).
  destruct (get_pending_jobs_head _ _ _ Hp) as (r & Hr & Hs & Hl & Hj).
  split; [done|]. exists r. split; [done|].
  rewrite (lock_job_unlocked _ _ _ _ _ _ Hr Hl). cbn [snd store].
  assert (Hx : _execute_job run job = true)
    by (unfold _execute_job; by rewrite Hrun).
  rewrite Hx. unfold resolve.
  rewrite update_job_insert by done. rewrite lookup_insert_eq.
  cbn [job_command job_state job_attempts job_max_retries job_updated_at
       set_updated_at set_state created_at].
  apply _row_to_job_eta in Hj as (-> & _ & -> & -> & _ & _). done.
Qed.

Lemma successful_job_is_completed_witness :
  get_pending_jobs (store (world_of test1_db never))
    = [mkJob "test1" "echo hello" PENDING 0 3 0 0] /\
  healthy_for 3 (world_of test1_db never) /\
  exists r,
    store (_process_next_job "worker1" sh (world_of test1_db never)).2
      !! "test1" = Some r /\ state r = COMPLETED /\ attempts r = 0.
Proof.
  assert (Hp : get_pending_jobs (store (world_of test1_db never))
               = [mkJob "test1" "echo hello" PENDING 0 3 0 0])
    by (vm_compute; reflexivity).
  assert (Hh : healthy_for 3 (world_of test1_db never))
    by (intros k _; reflexivity).
  split; [exact Hp|]. split; [exact Hh|].
  destruct (successful_job_is_completed "worker1" sh (world_of test1_db never)
              _ _ Hp Hh eq_refl) as (_ & r & Hr & Hr').
  eexists. split; [exact Hr'|]. split; [reflexivity|].
  cbn [attempts]. vm_compute in Hr. injection Hr as <-. reflexivity.
Defined.

Lemma tick_claims_oldest_witness :
  store (world_of false_db never) !! "job1"
    = Some (mkRow "false" PENDING 0 2 0 0 None None) /\
  forall id2 r2, false_db !! id2 = Some r2 -> state r2 = PENDING ->
                 locked_at r2 = None -> 0 <= created_at r2.
Proof.
  assert (Hr : store (world_of false_db never) !! "job1"
               = Some (mkRow "false" PENDING 0 2 0 0 None None)) by reflexivity.
  assert (Hr' : store (_process_next_job "worker1" sh
                         (world_of false_db never)).2 !! "job1"
                = Some (mkRow "false" PENDING 1 2 0 102 None None))
    by (vm_compute; reflexivity).
  split; [exact Hr|].
  apply (tick_claims_oldest "worker1" sh (world_of false_db never) "job1"
           _ _ Hr Hr'). discriminate.
Defined.

(** A row that is not both pending and unlocked is the same after a tick. *)
Lemma _process_next_job_keeps_row wid run w id r :
  store w !! id = Some r ->
  ~ (state r = PENDING /\ locked_at r = None) ->
  store (_process_next_job wid run w).2 !! id = Some r.
Proof.
  intros Hr Hnot.
  destruct (_process_next_job_result wid run w)
    as [Heq|(job & rest & r0 & r0' & Hp & Hr0 & Hs & Hl & Heq & Hout)];
    rewrite Heq; [done|].
  rewrite lookup_insert_ne; [done|]. intros <-.
  rewrite Hr0 in Hr. injection Hr as <-. by apply Hnot.
Qed.

Lemma start_keeps_row wid ticks w id r :
  store w !! id = Some r ->
  ~ (state r = PENDING /\ locked_at r = None) ->
  store (start wid ticks w).2 !! id = Some r.
Proof.
  revert w. induction ticks as [|t ticks IH]; intros w Hr Hnot; [done|].
  pose proof (_process_next_job_keeps_row wid (Worker.run t) w id r Hr Hnot)
    as Hkeep.
  destruct (_process_next_job wid (Worker.run t) w) as [[e|[]] w1] eqn:Ht.
  - by rewrite (start_cons_raises _ _ _ _ _ _ Ht).
  - rewrite (start_cons_returns _ _ _ _ _ Ht).
    destruct (shutdown t); [done|]. by apply IH.
Qed.

(** X14: for a worker loop that is the only writer of the table (no
    second worker and no client call between its store calls, as in a
    [World]): a job that is locked, or in any state other than [PENDING],
    is never changed, however long the loop runs, whatever the commands do
    and whichever store calls fail.  In particular a job that was left
    claimed stays [PROCESSING] and locked: the loop has no lock expiry. *)
Theorem start_never_touches_unclaimable_job wid ticks w id r :
  store w !! id = Some r ->
  state r <> PENDING \/ locked_at r <> None ->
  store (start wid ticks w).2 !! id = Some r.
Proof.
  intros Hr Hnot. apply start_keeps_row; [done|].
  intros [Hs Hl]. destruct Hnot; done.
Qed.

Lemma start_never_touches_unclaimable_job_witness :
  store (world_of test1_released never) !! "test1"
    = Some (mkRow "echo hello" PROCESSING 0 3 0 2 None None) /\
  store (start "worker1" [mkTick sh false; mkTick sh false; mkTick sh true]
           (world_of test1_released never)).2 !! "test1"
    = Some (mkRow "echo hello" PROCESSING 0 3 0 2 None None).
Proof.
  assert (Hr : store (world_of test1_released never) !! "test1"
               = Some (mkRow "echo hello" PROCESSING 0 3 0 2 None None))
    by reflexivity.
  split; [exact Hr|].
  apply (start_never_touches_unclaimable_job "worker1" _ _ "test1" _ Hr).
  left. discriminate.
Defined.

(** The list of claimable jobs when there is just one. *)
Lemma get_pending_jobs_sole db id r :
  db !! id = Some r -> state r = PENDING -> locked_at r = None ->
  sole_pending db id ->
  get_pending_jobs db = [_row_to_job (id, r)].
Proof.
  intros Hr Hs Hl Hsole. unfold get_pending_jobs.
  set (P := fun kr : string * Row =>
              state kr.2 = PENDING /\ locked_at kr.2 = None).
  assert (Hall : forall kr, kr ∈ filter P (map_to_list db) -> kr = (id, r)).
  { intros [k r'] Hin. apply list_elem_of_filter in Hin as [[Hs' Hl'] Hin].
    apply elem_of_map_to_list in Hin. cbn in *.
    pose proof (Hsole _ _ Hin Hs' Hl') as ->. congruence. }
  assert (Hin : (id, r) ∈ filter P (map_to_list db)).
  { apply list_elem_of_filter. split; [done|]. by apply elem_of_map_to_list. }
  assert (Hnd : NoDup (filter P (map_to_list db)))
    by (apply NoDup_filter, NoDup_map_to_list).
  assert (Hl1 : filter P (map_to_list db) = [(id, r)]).
  { destruct (filter P (map_to_list db)) as [|a [|b l]].
    - by apply elem_of_nil in Hin.
    - f_equal. apply Hall. left.
    - exfalso. apply NoDup_cons in Hnd as [Hna _]. apply Hna.
      rewrite (Hall a) by left. rewrite <- (Hall b) by (right; left). left. }
  rewrite Hl1. reflexivity.
Qed.

(** A failing tick on the only claimable job, with a working store. *)
Lemma failing_tick_sole wid t w id r :
  store w !! id = Some r -> state r = PENDING -> locked_at r = None ->
  sole_pending (store w) id ->
  (forall n, fails w n = false) ->
  failing_tick (command r) t ->
  exists w1 now,
    _process_next_job wid (Worker.run t) w = (inr tt, w1) /\
    (forall n, fails w1 n = false) /\
    store w1 =
      <[id := mkRow (command r)
                 (if bool_decide (attempts r + 1 >= max_retries r)
                  then DEAD else PENDING)
                 (attempts r + 1) (max_retries r) (created_at r) now
                 None None]> (store w).
Proof.
  intros Hr Hs Hl Hsole Hnever [_ Hfail].
  pose proof (get_pending_jobs_sole _ _ _ Hr Hs Hl Hsole) as Hp.
  assert (Hh : healthy_for 3 w) by (intros k _; apply Hnever).
  rewrite (_process_next_job_healthy _ _ _ _ _ Hp Hh).
  eexists _, _. split; [reflexivity|]. split; [exact Hnever|].
  cbn [store job_id _row_to_job fst].
  rewrite (lock_job_unlocked _ _ _ _ _ _ Hr Hl). cbn [snd].
  rewrite Hfail by done. unfold resolve.
  cbn [set_attempts job_attempts job_max_retries _row_to_job snd].
  rewrite update_job_insert by (by case_bool_decide).
  case_bool_decide; reflexivity.
Qed.

(** X15: retry exhaustion.  Take the only claimable job of a table, with
    attempts below [max_retries], a store that never fails and a loop whose
    ticks all find the command failing and bring no shutdown.  While fewer
    than [max_retries - attempts] ticks have run, the job is pending and
    unlocked with one more attempt per tick; once that many ticks have run
    it is in the dead letter queue with [attempts = max_retries], and it
    stays there however many more ticks follow. *)
Theorem always_failing_job_reaches_dlq wid ticks w id r :
  store w !! id = Some r -> state r = PENDING -> locked_at r = None ->
  sole_pending (store w) id ->
  (forall n, fails w n = false) ->
  attempts r < max_retries r ->
  Forall (failing_tick (command r)) ticks ->
  exists r',
    store (start wid ticks w).2 !! id = Some r' /\
    command r' = command r /\ max_retries r' = max_retries r /\
    locked_at r' = None /\
    (Z.of_nat (length ticks) < max_retries r - attempts r ->
     state r' = PENDING /\
     attempts r' = attempts r + Z.of_nat (length ticks)) /\
    (max_retries r - attempts r <= Z.of_nat (length ticks) ->
     state r' = DEAD /\ attempts r' = max_retries r).
Proof.
  intros Hr Hs Hl Hsole Hnever Hlt Hticks.
  revert w r Hr Hs Hl Hsole Hnever Hlt Hticks.
  induction ticks as [|t ticks IH]; intros w r Hr Hs Hl Hsole Hnever Hlt Hticks.
  - exists r. cbn. repeat (split; [done|]). split; [|lia].
    intros _. split; [done | lia].
  - apply Forall_cons in Hticks as [Ht Hticks].
    destruct (failing_tick_sole wid t w id r Hr Hs Hl Hsole Hnever Ht)
      as (w1 & now & Htick & Hnever1 & Hst1).
    rewrite (start_cons_returns _ _ _ _ _ Htick).
    destruct Ht as [-> _].
    set (r1 := mkRow (command r)
                 (if bool_decide (attempts r + 1 >= max_retries r)
                  then DEAD else PENDING)
                 (attempts r + 1) (max_retries r) (created_at r) now
                 None None) in Hst1.
    assert (Hr1 : store w1 !! id = Some r1)
      by (rewrite Hst1; apply lookup_insert_eq).
    destruct (decide (attempts r + 1 >= max_retries r)) as [Hge|Hnge].
    + assert (Hdead : state r1 = DEAD)
        by (unfold r1; cbn; by rewrite bool_decide_eq_true_2).
      exists r1. split.
      { apply start_keeps_row; [done|]. rewrite Hdead. by intros [? _]. }
      repeat (split; [done|]). cbn [length]. split; [lia|].
      intros _. split; [done|]. cbn. lia.
    + assert (Hpend : state r1 = PENDING)
        by (unfold r1; cbn; by rewrite bool_decide_eq_false_2).
      assert (Hsole1 : sole_pending (store w1) id).
      { intros id' r' Hr' Hs' Hl'.
        destruct (decide (id' = id)) as [->|Hne]; [done|].
        rewrite Hst1, lookup_insert_ne in Hr' by done.
        exact (Hsole _ _ Hr' Hs' Hl'). }
      destruct (IH w1 r1 Hr1 Hpend eq_refl Hsole1 Hnever1)
        as (r' & Hr' & Hc & Hm & Hl' & Hbelow & Habove);
        [cbn; lia | exact Hticks |].
      exists r'. split; [exact Hr'|].
      cbn [command max_retries attempts r1] in *.
      repeat (split; [done|]). cbn [length]. split.
      * intros Hk. destruct Hbelow as [? ?]; [lia|]. split; [done | lia].
      * intros Hk. apply Habove. lia.
Qed.

End WorkerBehaviour.

Lemma always_failing_job_reaches_dlq_witness :
  store (world_of false_db never) !! "job1"
    = Some (mkRow "false" PENDING 0 2 0 0 None None) /\
  sole_pending (store (world_of false_db never)) "job1" /\
  Forall (failing_tick "false") [mkTick sh false; mkTick sh false] /\
  exists r',
    store (start "worker1" [mkTick sh false; mkTick sh false]
             (world_of false_db never)).2 !! "job1" = Some r' /\
    state r' = DEAD /\ attempts r' = 2.
Proof.
  assert (Hr : store (world_of false_db never) !! "job1"
               = Some (mkRow "false" PENDING 0 2 0 0 None None)) by reflexivity.
  assert (Hsole : sole_pending (store (world_of false_db never)) "job1").
  { intros id' r' H _ _. cbn [store world_of] in H. unfold false_db in H.
    rewrite lookup_insert in H.
    destruct (decide ("job1" = id')) as [<-|_]; [reflexivity|].
    rewrite lookup_empty in H. discriminate H. }
  assert (Hticks : Forall (failing_tick "false")
                     [mkTick sh false; mkTick sh false]).
  { repeat constructor; intros job Hc; unfold _execute_job; cbn [Worker.run];
      rewrite Hc; reflexivity. }
  split; [exact Hr|]. split; [exact Hsole|]. split; [exact Hticks|].
  destruct (always_failing_job_reaches_dlq "worker1"
              [mkTick sh false; mkTick sh false] (world_of false_db never)
              "job1" _ Hr eq_refl eq_refl Hsole (fun _ => eq_refl))
    as (r' & Hr' & _ & _ & _ & _ & Hdead).
  { cbn. lia. }
  { exact Hticks. }
  exists r'. split; [exact Hr'|].
  cbn [max_retries attempts length] in Hdead. apply Hdead. lia.
Defined.

Lemma lock_job_get_stats_witness :
  test1_db !! "test1" = Some (mkRow "echo hello" PENDING 0 3 0 0 None None) /\
  Database.get_stats (lock_job test1_db "test1" "worker1" 1 1).2
    !! value PROCESSING = Some (count_state test1_db PROCESSING + 1).
Proof.
  assert (Hr : test1_db !! "test1"
               = Some (mkRow "echo hello" PENDING 0 3 0 0 None None))
    by reflexivity.
  split; [exact Hr|].
  destruct (proj1 (lock_job_get_stats test1_db "test1" _ "worker1" 1 1 Hr))
    as [H _]; [reflexivity | discriminate | exact H].
Defined.

Lemma claim_in_turn_one_winner_witness :
  test1_db !! "test1" = Some (mkRow "echo hello" PENDING 0 3 0 0 None None) /\
  (Claimants.claim_in_turn "test1" 1 ["worker1"; "worker2"; "worker3"]
     test1_db).1 = [true; false; false].
Proof.
  assert (Hr : test1_db !! "test1"
               = Some (mkRow "echo hello" PENDING 0 3 0 0 None None))
    by reflexivity.
  split; [exact Hr|].
  exact (claim_in_turn_one_winner test1_db "test1" _ "worker1"
           ["worker2"; "worker3"] 1 Hr eq_refl).
Defined.


(** * Further properties of the queue manager and the configuration *)

Section QueueOperations.

Implicit Types (db : Table) (r : Row) (job : Job) (s : JobState).

(** X18: the state names round trip: [JobState(s.value)] is [s], the only
    text that [JobState(..)] accepts for [s] is [s.value], and two states
    never share a value, so the [state] column identifies the state. *)
Theorem JobState_of_value :
  (forall s, JobState_of (value s) = Some s) /\
  (forall text s, JobState_of text = Some s -> text = value s) /\
  (forall s1 s2, value s1 = value s2 -> s1 = s2).
Proof.
  split; [|split].
  - by intros [].
  - intros text s. unfold JobState_of.
    repeat case_bool_decide; intros [= <-]; done.
  - by intros [] [].
Qed.

Lemma JobState_of_value_witness :
  JobState_of "dead" = Some DEAD /\ "dead" = value DEAD.
Proof.
  assert (H : JobState_of "dead" = Some DEAD) by reflexivity.
  split; [exact H|].
  exact (proj1 (proj2 JobState_of_value) "dead" DEAD H).
Defined.

(** X19: [list_jobs] with the name of a state returns the jobs of that
    state, oldest first; without a filter, and also with the empty string
    as filter, it returns all jobs, newest first; any other text raises the
    [ValueError] of [JobState(..)]. *)
Theorem list_jobs_spec db :
  (forall s, QueueManager.list_jobs db (Some (value s))
             = inr (get_jobs_by_state db s)) /\
  QueueManager.list_jobs db None = inr (get_all_jobs db) /\
  QueueManager.list_jobs db (Some "") = inr (get_all_jobs db) /\
  (forall text, text <> "" -> (forall s, text <> value s) ->
     QueueManager.list_jobs db (Some text)
       = inl (QueueManager.ValueError_not_a_valid_JobState text)).
Proof.
  split; [by intros []|]. split; [done|]. split; [done|].
  intros text Hne Hnot. unfold QueueManager.list_jobs.
  rewrite bool_decide_eq_false_2 by done.
  destruct (JobState_of text) as [s|] eqn:Hs; [|done].
  exfalso. apply (Hnot s). revert Hs. unfold JobState_of.
  repeat case_bool_decide; intros [= <-]; done.
Qed.

Lemma list_jobs_spec_witness :
  "PENDING" <> "" /\ (forall s, "PENDING" <> value s) /\
  QueueManager.list_jobs false_db (Some "PENDING")
    = inl (QueueManager.ValueError_not_a_valid_JobState "PENDING").
Proof.
  assert (H1 : "PENDING" <> "") by discriminate.
  assert (H2 : forall s, "PENDING" <> value s) by (intros []; discriminate).
  split; [exact H1|]. split; [exact H2|].
  exact (proj2 (proj2 (proj2 (list_jobs_spec false_db))) "PENDING" H1 H2).
Defined.

(** X20: a successful [retry_dlq_job] takes the job out of the dead letter
    queue and puts it among the jobs that [get_pending_jobs] offers to the
    workers; the job it returns is the job as [get_job] now reads it, with
    its [created_at], command and [max_retries] as before; and retrying the
    same id again fails with [StateConflict]. *)
Theorem retry_dlq_job_requeues db id now job db' :
  QueueManager.retry_dlq_job db id now = inr (job, db') ->
  (exists old, old ∈ QueueManager.get_dlq_jobs db /\ job_id old = id /\
               job_command job = job_command old /\
               job_max_retries job = job_max_retries old /\
               job_created_at job = job_created_at old) /\
  get_job db' id = Some job /\
  job ∈ get_pending_jobs db' /\
  (forall j, j ∈ QueueManager.get_dlq_jobs db' -> job_id j <> id) /\
  (forall now', exists e,
     QueueManager.retry_dlq_job db' id now' = inl e /\
     kind_of e = StateConflict).
Proof.
  unfold QueueManager.retry_dlq_job, QueueManager.get_dlq_jobs,
    get_jobs_by_state, get_pending_jobs.
  destruct (get_job db id) as [old|] eqn:Hold; [|done].
  case_bool_decide as Hdead; [done|].
  assert (Hs : job_state old = DEAD) by (by destruct (job_state old)).
  apply get_job_Some in Hold as (r & Hr & ->).
  cbn [job_state _row_to_job snd] in Hs.
  intros [= <- <-].
  set (job' := set_updated_at now
                 (set_attempts 0 (set_state PENDING (_row_to_job (id, r))))).
  assert (Hrow : update_job db job' !! id =
            Some (mkRow (command r) PENDING 0 (max_retries r)
                        (created_at r) now None None))
    by exact (update_job_lookup db job' r Hr).
  split; [|split; [|split; [|split]]].
  - exists (_row_to_job (id, r)). split; [|done].
    apply elem_of_selection. exists r. cbn [job_id _row_to_job fst]. done.
  - apply get_job_Some. eexists. split; [exact Hrow|]. reflexivity.
  - apply elem_of_selection. eexists. split; [exact Hrow|]. done.
  - intros j Hj Hjid. apply elem_of_selection in Hj as (rj & Hrj & Hsj & _).
    rewrite Hjid, Hrow in Hrj. injection Hrj as <-. discriminate Hsj.
  - intros now'. unfold get_job. rewrite Hrow. cbn.
    rewrite bool_decide_eq_true_2 by done. eauto.
Qed.

Lemma retry_dlq_job_requeues_witness :
  QueueManager.retry_dlq_job
    (update_job false_db (set_state DEAD false_job)) "job1" 9
    = inr (mkJob "job1" "false" PENDING 0 2 0 9,
           update_job (update_job false_db (set_state DEAD false_job))
             (mkJob "job1" "false" PENDING 0 2 0 9)) /\
  mkJob "job1" "false" PENDING 0 2 0 9
    ∈ get_pending_jobs
        (update_job (update_job false_db (set_state DEAD false_job))
           (mkJob "job1" "false" PENDING 0 2 0 9)).
Proof.
  assert (H : QueueManager.retry_dlq_job
                (update_job false_db (set_state DEAD false_job)) "job1" 9
              = inr (mkJob "job1" "false" PENDING 0 2 0 9,
                     update_job (update_job false_db (set_state DEAD false_job))
                       (mkJob "job1" "false" PENDING 0 2 0 9)))
    by reflexivity.
  split; [exact H|].
  exact (proj1 (proj2 (proj2 (retry_dlq_job_requeues _ _ _ _ _ H)))).
Defined.

(** X21: a job that [enqueue] created is at once among the jobs that
    [get_pending_jobs] offers to the workers, under the given id or, when
    none (or the empty string) was given, under the generated one; the jobs
    that were claimable before still are; and the pending count and the
    total of the statistics are one higher. *)
Theorem enqueue_is_claimable cfg db cmd jid retries uuid12 now_c now_u job db' :
  QueueManager.enqueue cfg db cmd jid retries uuid12 now_c now_u
    = inr (job, db') ->
  job ∈ get_pending_jobs db' /\
  job_id job = QueueManager.str_or jid uuid12 /\
  (jid = None \/ jid = Some "" -> job_id job = uuid12) /\
  (forall j, j ∈ get_pending_jobs db -> j ∈ get_pending_jobs db') /\
  QueueManager.pending (QueueManager.get_stats db')
    = QueueManager.pending (QueueManager.get_stats db) + 1 /\
  QueueManager.total (QueueManager.get_stats db')
    = QueueManager.total (QueueManager.get_stats db) + 1.
Proof.
  intros He. apply enqueue_inr in He as (-> & _ & Hn & ->).
  cbn [job_id job_max_retries] in *. unfold get_pending_jobs.
  split; [|split; [|split; [|split; [|split]]]].
  - apply elem_of_selection. cbn [job_id]. eexists.
    split; [apply lookup_insert_eq|]. done.
  - done.
  - intros [->| ->]; done.
  - intros j Hj. apply elem_of_selection in Hj as (r & Hr & HP & Hj).
    apply elem_of_selection. exists r. split; [|done].
    rewrite lookup_insert_ne; [done|]. intros Heq. congruence.
  - unfold QueueManager.get_stats. cbn [QueueManager.pending]. unfold dict_get.
    rewrite !get_stats_lookup, (count_state_insert_None _ _ _ _ Hn).
    cbn [state]. by rewrite decide_True.
  - rewrite !total_is_size, map_size_insert_None by done. lia.
Qed.

Lemma enqueue_is_claimable_witness :
  QueueManager.enqueue Config.DEFAULTS ∅ "false" (Some "job1") (Some 2)
    "0f8fad5b-d9c" 0 0 = inr (false_job, false_db) /\
  false_job ∈ get_pending_jobs false_db.
Proof.
  assert (H : QueueManager.enqueue Config.DEFAULTS ∅ "false" (Some "job1")
                (Some 2) "0f8fad5b-d9c" 0 0 = inr (false_job, false_db))
    by reflexivity.
  split; [exact H|].
  exact (proj1 (enqueue_is_claimable _ _ _ _ _ _ _ _ _ _ H)).
Defined.

(** X22: [Config.set] and [Config.get] round trip.  After a [set(key, v)]
    that returned, [get(key, ..)] returns [v] whatever the default, every
    other key reads as before, the file holds the whole dictionary, and a
    new [Config] object on that file reads the same values; on a first use
    without a file [set] returns and the defaults are written along with
    the new key. *)
Theorem config_set_get st key v st' :
  ConfigObject.set st key v = (inr tt, st') ->
  (forall default, ConfigObject.get st' key default = (inr v, st')) /\
  (forall k default, k <> key ->
     (ConfigObject.get st' k default).1 = (ConfigObject.get st k default).1) /\
  (exists d,
     (forall k default,
        (ConfigObject.get st k default).1 = inr (Config.get d k default)) /\
     ConfigObject._config st' = Some (ConfigObject.Dict (<[key := v]> d)) /\
     ConfigObject.config_file st' = ConfigObject.Holds (<[key := v]> d)) /\
  (forall k default,
     (ConfigObject.get (ConfigObject.fresh (ConfigObject.config_file st'))
        k default).1
       = (ConfigObject.get st' k default).1) /\
  ConfigObject.set (ConfigObject.fresh ConfigObject.Missing) key v
    = (inr tt,
       ConfigObject.mkState
         (Some (ConfigObject.Dict (<[key := v]> Config.DEFAULTS)))
         (ConfigObject.Holds (<[key := v]> Config.DEFAULTS))).
Proof.
  intros Hset.
  assert (Hd : exists d,
            (ConfigObject._ensure_loaded st).1 = inr tt /\
            ConfigObject._config (ConfigObject._ensure_loaded st).2
              = Some (ConfigObject.Dict d) /\
            st' = ConfigObject.mkState
                    (Some (ConfigObject.Dict (<[key := v]> d)))
                    (ConfigObject.Holds (<[key := v]> d))).
  { revert Hset. unfold ConfigObject.set.
    destruct (ConfigObject._ensure_loaded st) as [[e|[]] st1]; [done|].
    destruct (ConfigObject._config st1) as [[d|]|] eqn:Hc; try done.
    intros [= <-]. exists d. done. }
  destruct Hd as (d & Hok & Hc & ->).
  assert (Hget : forall k default,
            (ConfigObject.get st k default).1 = inr (Config.get d k default)).
  { intros k default. unfold ConfigObject.get.
    destruct (ConfigObject._ensure_loaded st) as [[e|[]] st1]; [done|].
    cbn [snd] in Hc. by rewrite Hc. }
  split; [|split; [|split; [|split]]].
  - intros default. unfold ConfigObject.get, Config.get, dict_get. cbn.
    by rewrite lookup_insert_eq.
  - intros k default Hne. rewrite Hget.
    unfold ConfigObject.get, Config.get, dict_get. cbn.
    by rewrite lookup_insert_ne.
  - exists d. done.
  - done.
  - reflexivity.
Qed.

Lemma config_set_get_witness :
  ConfigObject.set (ConfigObject.fresh ConfigObject.Missing) "max_retries" 5
    = (inr tt,
       ConfigObject.mkState
         (Some (ConfigObject.Dict (<["max_retries" := 5]> Config.DEFAULTS)))
         (ConfigObject.Holds (<["max_retries" := 5]> Config.DEFAULTS))) /\
  (ConfigObject.get
     (ConfigObject.mkState
        (Some (ConfigObject.Dict (<["max_retries" := 5]> Config.DEFAULTS)))
        (ConfigObject.Holds (<["max_retries" := 5]> Config.DEFAULTS)))
     "max_retries" 3).1 = inr 5.
Proof.
  assert (H : ConfigObject.set (ConfigObject.fresh ConfigObject.Missing)
                "max_retries" 5
              = (inr tt,
                 ConfigObject.mkState
                   (Some (ConfigObject.Dict
                            (<["max_retries" := 5]> Config.DEFAULTS)))
                   (ConfigObject.Holds
                      (<["max_retries" := 5]> Config.DEFAULTS))))
    by reflexivity.
  split; [exact H|].
  rewrite (proj1 (config_set_get _ _ _ _ H) 3). reflexivity.
Defined.

(** X23: loading the configuration.  Without a file, or with one whose
    load raises [IOError] or [json.JSONDecodeError], the object holds the
    defaults.  A file with a JSON object replaces the defaults as a whole:
    a key that the file lacks reads as the caller's default, not as the
    value in [DEFAULTS].  When the load raises anything else (a file that
    is not UTF-8), [get] and [set] raise that exception, the object stays
    unloaded and raises again at the next call, and nothing is written.
    When the file holds JSON that is not an object, [get] raises
    [AttributeError] and [set] raises [TypeError], every time, and the file
    is left as it is.  An object that has loaded its dictionary does not
    read the file again. *)
Theorem config_load (key : string) (default v : Z) (d : gmap string Z)
    (f f' : ConfigObject.File) :
  (f = ConfigObject.Missing \/ f = ConfigObject.Unreadable ->
   ConfigObject.get (ConfigObject.fresh f) key default
     = (inr (Config.get Config.DEFAULTS key default),
        ConfigObject.mkState (Some (ConfigObject.Dict Config.DEFAULTS)) f)) /\
  ConfigObject.get (ConfigObject.fresh (ConfigObject.Holds d)) key default
    = (inr (Config.get d key default),
       ConfigObject.mkState (Some (ConfigObject.Dict d)) (ConfigObject.Holds d)) /\
  (d !! key = None ->
   (ConfigObject.get (ConfigObject.fresh (ConfigObject.Holds d)) key default).1
     = inr default) /\
  (ConfigObject.get (ConfigObject.fresh ConfigObject.Undecodable) key default
     = (inl ConfigObject.LoadError, ConfigObject.fresh ConfigObject.Undecodable) /\
   ConfigObject.set (ConfigObject.fresh ConfigObject.Undecodable) key v
     = (inl ConfigObject.LoadError, ConfigObject.fresh ConfigObject.Undecodable)) /\
  (f = ConfigObject.HoldsNull \/ f = ConfigObject.HoldsOther ->
   (ConfigObject.get (ConfigObject.fresh f) key default).1
     = inl ConfigObject.AttributeError /\
   (ConfigObject.get
      (ConfigObject.get (ConfigObject.fresh f) key default).2 key default).1
     = inl ConfigObject.AttributeError /\
   (ConfigObject.set (ConfigObject.fresh f) key v).1
     = inl ConfigObject.TypeError /\
   ConfigObject.config_file (ConfigObject.set (ConfigObject.fresh f) key v).2
     = f) /\
  ConfigObject.get (ConfigObject.mkState (Some (ConfigObject.Dict d)) f)
    key default
    = (inr (Config.get d key default),
       ConfigObject.mkState (Some (ConfigObject.Dict d)) f).
Proof.
  split; [intros [-> | ->]; reflexivity|].
  split; [reflexivity|].
  split.
  { intros Hn. unfold ConfigObject.get, Config.get, dict_get. cbn.
    by rewrite Hn. }
  split; [split; reflexivity|].
  split; [intros [-> | ->]; repeat split|].
  reflexivity.
Qed.

Lemma config_load_witness :
  (<["custom_key" := 1]> ∅ : gmap string Z) !! "max_retries" = None /\
  (ConfigObject.get
     (ConfigObject.fresh (ConfigObject.Holds (<["custom_key" := 1]> ∅)))
     "max_retries" 7).1 = inr 7.
Proof.
  assert (H : (<["custom_key" := 1]> ∅ : gmap string Z) !! "max_retries" = None)
    by reflexivity.
  split; [exact H|].
  exact (proj1 (proj2 (proj2
           (config_load "max_retries" 7 0 (<["custom_key" := 1]> ∅)
              ConfigObject.Missing ConfigObject.Missing))) H).
Defined.

(** [Config.reset] restores the defaults in the object and in the file,
    whatever they held before, also when the file could not be loaded. *)
Lemma config_reset st key default :
  ConfigObject.get (ConfigObject.reset st) key default
    = (inr (Config.get Config.DEFAULTS key default),
       ConfigObject.mkState (Some (ConfigObject.Dict Config.DEFAULTS))
         (ConfigObject.Holds Config.DEFAULTS)) /\
  ConfigObject.get
    (ConfigObject.fresh (ConfigObject.config_file (ConfigObject.reset st)))
    key default
    = (inr (Config.get Config.DEFAULTS key default),
       ConfigObject.mkState (Some (ConfigObject.Dict Config.DEFAULTS))
         (ConfigObject.Holds Config.DEFAULTS)).
Proof. split; reflexivity. Qed.

End QueueOperations.

(** * Further properties of the loop and of the lifecycle *)

Section Lifecycle.

Implicit Types (db : Table) (r : Row) (job : Job) (w : World).

(** A loop that has run all its ticks goes on with the ticks that follow. *)
Lemma start_app wid pre ticks w w1 :
  start wid pre w = (inr StillRunning, w1) ->
  start wid (pre ++ ticks) w = start wid ticks w1.
Proof.
  revert w. induction pre as [|p pre IH]; intros w.
  - cbn. by intros [= <-].
  - cbn [app].
    destruct (_process_next_job wid (Worker.run p) w) as [[e|[]] w2] eqn:Hp.
    + by rewrite (start_cons_raises _ _ _ _ _ _ Hp).
    + rewrite !(start_cons_returns _ _ _ _ _ Hp).
      destruct (shutdown p); [done|]. apply IH.
Qed.

(** X24: shutdown is cooperative and takes effect between ticks.  When the
    loop comes to the tick in which the shutdown arrives, in the world
    [w1] that the earlier ticks left, it runs that tick to its end: the
    world after the loop is the world after [_process_next_job] in [w1],
    and the loop is then stopped (or has raised what the tick raised).  No
    tick after it is run: the loop does exactly what it does when the
    schedule ends with that tick, and it never goes on running. *)
Theorem start_stops_at_shutdown wid pre t post w :
  shutdown t = true ->
  (forall w1,
     start wid pre w = (inr StillRunning, w1) ->
     start wid (pre ++ t :: post) w =
       match _process_next_job wid (Worker.run t) w1 with
       | (inl e, w2) => (inl e, w2)
       | (inr _, w2) => (inr Stopped, w2)
       end) /\
  start wid (pre ++ t :: post) w = start wid (pre ++ [t]) w /\
  (start wid (pre ++ [t]) w).1 <> inr StillRunning.
Proof.
  intros Hsd. split.
  { intros w1 Hpre. rewrite (start_app _ _ _ _ _ Hpre).
    destruct (_process_next_job wid (Worker.run t) w1) as [[e|[]] w2] eqn:Ht.
    - by rewrite (start_cons_raises _ _ _ _ _ _ Ht).
    - by rewrite (start_cons_returns _ _ _ _ _ Ht), Hsd. }
  revert w. induction pre as [|p pre IH]; intros w.
  - cbn [app].
    destruct (_process_next_job wid (Worker.run t) w) as [[e|[]] w1] eqn:Ht.
    + rewrite !(start_cons_raises _ _ _ _ _ _ Ht). done.
    + rewrite !(start_cons_returns _ _ _ _ _ Ht), Hsd. done.
  - cbn [app].
    destruct (_process_next_job wid (Worker.run p) w) as [[e|[]] w1] eqn:Hp.
    + rewrite !(start_cons_raises _ _ _ _ _ _ Hp). done.
    + rewrite !(start_cons_returns _ _ _ _ _ Hp).
      destruct (shutdown p); [done|]. apply IH.
Qed.

Lemma start_stops_at_shutdown_witness :
  shutdown (mkTick sh true) = true /\
  start "worker1" [mkTick sh false] (world_of false_db never)
    = (inr StillRunning,
       (_process_next_job "worker1" sh (world_of false_db never)).2) /\
  (start "worker1" [mkTick sh false; mkTick sh true; mkTick sh false]
     (world_of false_db never)).1 = inr Stopped /\
  after_ticks [mkTick sh false; mkTick sh true; mkTick sh false]
    (world_of false_db never) !! "job1"
    = Some (mkRow "false" DEAD 2 2 0 105 None None).
Proof.
  assert (H : shutdown (mkTick sh true) = true) by reflexivity.
  assert (Hpre : start "worker1" [mkTick sh false] (world_of false_db never)
                 = (inr StillRunning,
                    (_process_next_job "worker1" sh
                       (world_of false_db never)).2))
    by (vm_compute; reflexivity).
  split; [exact H|]. split; [exact Hpre|].
  pose proof (proj1 (start_stops_at_shutdown "worker1" [mkTick sh false]
                       (mkTick sh true) [mkTick sh false]
                       (world_of false_db never) H) _ Hpre) as Heq.
  cbn [app] in Heq. unfold after_ticks. rewrite Heq.
  split; vm_compute; reflexivity.
Defined.




End Lifecycle.
